(** * The idea prompt generator: [brainstorm_ideas] and its retry loop

    A shallow embedding of the notebook [prompt_generator.ipynb]: the three
    pydantic classes [Audience], [Idea] and [Ideas], the validation that
    pydantic performs for them, and the function [brainstorm_ideas] with its
    two chat-completion requests and its [while num_try < 3] loop.

    Python strings are modelled as [string], read as the UTF-8 bytes of the
    text.  The chat-completion client is a parameter of the development. *)

From Stdlib Require Import ZArith Ascii String.
From stdpp Require Import base list strings.

Local Open Scope string_scope.
Local Open Scope Z_scope.

(** ** JSON values *)

(** A JSON document as the parser hands it to the validator.  A number keeps
    its lexeme; an object keeps its members in document order, duplicates
    included. *)
#[warnings="-register-all"]
Inductive json : Type :=
  | JNull
  | JBool (b : bool)
  | JNumber (lexeme : string)
  | JString (s : string)
  | JArray (items : list json)
  | JObject (members : list (string * json)).

(** Member lookup: with duplicate keys the last occurrence wins, as in a
    Python [dict] built from the document. *)
Fixpoint obj_get (k : string) (members : list (string * json)) : option json :=
  match members with
  | [] => None
  | (k', v) :: rest =>
      match obj_get k rest with
      | Some v' => Some v'
      | None => if String.eqb k k' then Some v else None
      end
  end.

(** ** Reading JSON text *)

(** [model_validate_json] first reads its argument as one JSON document.
    The reader below follows the JSON grammar; like the one pydantic uses it
    also takes the number words [NaN], [Infinity] and [-Infinity], and it
    has that reader's two limits: arrays and objects with something in them
    may be nested 200 deep and no deeper, and the integer part of a number,
    its sign included, may be 4300 characters long and no longer. *)

Module Json.

Definition dquote : ascii := "034"%char.
Definition backslash : ascii := "092"%char.

(** The two limits of the reader. *)
Definition recursion_limit : nat := 200.
Definition int_limit : nat := 4300.

(** Whether bytes are the UTF-8 encoding of some text: no stray or missing
    continuation byte, no overlong form, no surrogate, nothing above
    U+10FFFF. *)
Definition continuation (c : ascii) : bool :=
  let n := N_of_ascii c in (128 <=? n)%N && (n <=? 191)%N.

Definition second_of_three (lead : N) (c : ascii) : bool :=
  let n := N_of_ascii c in
  if (lead =? 224)%N then (160 <=? n)%N && (n <=? 191)%N
  else if (lead =? 237)%N then (128 <=? n)%N && (n <=? 159)%N
  else continuation c.

Definition second_of_four (lead : N) (c : ascii) : bool :=
  let n := N_of_ascii c in
  if (lead =? 240)%N then (144 <=? n)%N && (n <=? 191)%N
  else if (lead =? 244)%N then (128 <=? n)%N && (n <=? 143)%N
  else continuation c.

Fixpoint utf8_valid (s : list ascii) : bool :=
  match s with
  | [] => true
  | a :: r =>
      let n := N_of_ascii a in
      if (n <? 128)%N then utf8_valid r
      else if (194 <=? n)%N && (n <=? 223)%N then
        match r with
        | b :: r' => continuation b && utf8_valid r'
        | _ => false
        end
      else if (224 <=? n)%N && (n <=? 239)%N then
        match r with
        | b :: c :: r' => second_of_three n b && continuation c && utf8_valid r'
        | _ => false
        end
      else if (240 <=? n)%N && (n <=? 244)%N then
        match r with
        | b :: c :: d :: r' =>
            second_of_four n b && continuation c && continuation d
            && utf8_valid r'
        | _ => false
        end
      else false
  end.

Definition is_ws (c : ascii) : bool :=
  match nat_of_ascii c with
  | 32%nat | 9%nat | 10%nat | 13%nat => true
  | _ => false
  end.

Fixpoint skip_ws (s : list ascii) : list ascii :=
  match s with
  | c :: r => if is_ws c then skip_ws r else s
  | [] => []
  end.

Definition is_digit (c : ascii) : bool :=
  let n := nat_of_ascii c in (48 <=? n)%nat && (n <=? 57)%nat.

Definition hex_val (c : ascii) : option N :=
  let n := N_of_ascii c in
  if (48 <=? n)%N && (n <=? 57)%N then Some (n - 48)%N
  else if (65 <=? n)%N && (n <=? 70)%N then Some (n - 55)%N
  else if (97 <=? n)%N && (n <=? 102)%N then Some (n - 87)%N
  else None.

Definition hex4 (a b c d : ascii) : option N :=
  match hex_val a, hex_val b, hex_val c, hex_val d with
  | Some x, Some y, Some z, Some w => Some (((x * 16 + y) * 16 + z) * 16 + w)%N
  | _, _, _, _ => None
  end.

(** UTF-8 encoding of a code point below 0x110000. *)
Definition utf8 (cp : N) : list ascii :=
  let byte n := ascii_of_N n in
  if (cp <? 128)%N then [byte cp]
  else if (cp <? 2048)%N then
    [byte (192 + cp / 64); byte (128 + cp mod 64)]%N
  else if (cp <? 65536)%N then
    [byte (224 + cp / 4096); byte (128 + (cp / 64) mod 64);
     byte (128 + cp mod 64)]%N
  else
    [byte (240 + cp / 262144); byte (128 + (cp / 4096) mod 64);
     byte (128 + (cp / 64) mod 64); byte (128 + cp mod 64)]%N.

Definition simple_escape (c : ascii) : option ascii :=
  match nat_of_ascii c with
  | 34%nat => Some dquote
  | 92%nat => Some backslash
  | 47%nat => Some "/"%char
  | 98%nat => Some "008"%char
  | 102%nat => Some "012"%char
  | 110%nat => Some "010"%char
  | 114%nat => Some "013"%char
  | 116%nat => Some "009"%char
  | _ => None
  end.

(** The characters of a string literal, after its opening quote.  Control
    characters must be escaped; a [\u] escape in the surrogate range must
    be the first half of a pair. *)
Fixpoint parse_chars (s : list ascii) (acc : list ascii)
  : option (string * list ascii) :=
  match s with
  | [] => None
  | c :: r =>
      if Ascii.eqb c dquote then
        Some (string_of_list_ascii (rev acc), r)
      else if Ascii.eqb c backslash then
        match r with
        | "u"%char :: a :: b :: c1 :: d :: r' =>
            match hex4 a b c1 d with
            | None => None
            | Some hi =>
                if (55296 <=? hi)%N && (hi <? 56320)%N then
                  match r' with
                  | bs :: "u"%char :: a2 :: b2 :: c2 :: d2 :: r'' =>
                      if Ascii.eqb bs backslash then
                        match hex4 a2 b2 c2 d2 with
                        | Some lo =>
                            if (56320 <=? lo)%N && (lo <? 57344)%N then
                              parse_chars r''
                                (rev (utf8 (65536 + (hi - 55296) * 1024
                                            + (lo - 56320))%N) ++ acc)
                            else None
                        | None => None
                        end
                      else None
                  | _ => None
                  end
                else if (56320 <=? hi)%N && (hi <? 57344)%N then None
                else parse_chars r' (rev (utf8 hi) ++ acc)
            end
        | e :: r' =>
            match simple_escape e with
            | Some x => parse_chars r' (x :: acc)
            | None => None
            end
        | [] => None
        end
      else if (nat_of_ascii c <? 32)%nat then None
      else parse_chars r (c :: acc)
  end.

Fixpoint take_digits (s : list ascii) (acc : list ascii)
  : list ascii * list ascii :=
  match s with
  | c :: r => if is_digit c then take_digits r (c :: acc) else (acc, s)
  | [] => (acc, [])
  end.

(** One or more digits. *)
Definition digits1 (s acc : list ascii) : option (list ascii * list ascii) :=
  match s with
  | c :: _ => if is_digit c then Some (take_digits s acc) else None
  | [] => None
  end.

Definition parse_frac (s acc : list ascii) : option (list ascii * list ascii) :=
  match s with
  | "."%char :: r => digits1 r ("."%char :: acc)
  | _ => Some (acc, s)
  end.

Definition parse_exp (s acc : list ascii) : option (list ascii * list ascii) :=
  match s with
  | e :: r =>
      if Ascii.eqb e "e"%char || Ascii.eqb e "E"%char then
        match r with
        | sg :: r' =>
            if Ascii.eqb sg "+"%char || Ascii.eqb sg "-"%char
            then digits1 r' (sg :: e :: acc)
            else digits1 r (e :: acc)
        | [] => None
        end
      else Some (acc, s)
  | [] => Some (acc, s)
  end.

(** The integer part: a lone [0], or a non-zero digit and more digits. *)
Definition parse_int (s acc : list ascii) : option (list ascii * list ascii) :=
  match s with
  | c :: r =>
      if Ascii.eqb c "0"%char then Some (c :: acc, r)
      else if is_digit c then Some (take_digits r (c :: acc))
      else None
  | [] => None
  end.

Definition parse_number (s : list ascii) : option (json * list ascii) :=
  let '(sign, s1) :=
    match s with
    | "-"%char :: r => (["-"%char], r)
    | _ => ([], s)
    end in
  match parse_int s1 sign with
  | None => None
  | Some (a1, s2) =>
      if (int_limit <? length a1)%nat then None else
      match parse_frac s2 a1 with
      | None => None
      | Some (a2, s3) =>
          match parse_exp s3 a2 with
          | None => None
          | Some (a3, s4) =>
              Some (JNumber (string_of_list_ascii (rev a3)), s4)
          end
      end
  end.

(** [expect w s]: the rest of [s] after the word [w], when [s] starts
    with it. *)
Fixpoint expect (w s : list ascii) : option (list ascii) :=
  match w, s with
  | [], _ => Some s
  | a :: w', b :: s' => if Ascii.eqb a b then expect w' s' else None
  | _ :: _, [] => None
  end.

Definition keyword (w : string) (v : json) (s : list ascii)
  : option (json * list ascii) :=
  match expect (list_ascii_of_string w) s with
  | Some r => Some (v, r)
  | None => None
  end.

(** Recursive descent over values, array elements and object members.
    Every call consumes fuel; [loads] supplies enough for its input.
    [depth] is how many more levels of arrays and objects that hold
    something may be entered. *)
Fixpoint parse_value (fuel : nat) (depth : nat) (s : list ascii)
  : option (json * list ascii) :=
  match fuel with
  | O => None
  | S f =>
      match skip_ws s with
      | [] => None
      | c :: r =>
          if Ascii.eqb c "{"%char then
            match skip_ws r with
            | "}"%char :: r' => Some (JObject [], r')
            | _ =>
                match depth with
                | O => None
                | S depth' => parse_members f depth' r []
                end
            end
          else if Ascii.eqb c "["%char then
            match skip_ws r with
            | "]"%char :: r' => Some (JArray [], r')
            | _ =>
                match depth with
                | O => None
                | S depth' => parse_elements f depth' r []
                end
            end
          else if Ascii.eqb c dquote then
            match parse_chars r [] with
            | Some (str, r') => Some (JString str, r')
            | None => None
            end
          else if Ascii.eqb c "t"%char then keyword "true" (JBool true) (c :: r)
          else if Ascii.eqb c "f"%char then keyword "false" (JBool false) (c :: r)
          else if Ascii.eqb c "n"%char then keyword "null" JNull (c :: r)
          else if Ascii.eqb c "N"%char then keyword "NaN" (JNumber "NaN") (c :: r)
          else if Ascii.eqb c "I"%char then
            keyword "Infinity" (JNumber "Infinity") (c :: r)
          else if Ascii.eqb c "-"%char then
            match r with
            | "I"%char :: _ => keyword "-Infinity" (JNumber "-Infinity") (c :: r)
            | _ => parse_number (c :: r)
            end
          else parse_number (c :: r)
      end
  end
with parse_elements (fuel : nat) (depth : nat) (s : list ascii)
  (acc : list json) : option (json * list ascii) :=
  match fuel with
  | O => None
  | S f =>
      match parse_value f depth s with
      | None => None
      | Some (v, r) =>
          match skip_ws r with
          | ","%char :: r' => parse_elements f depth r' (v :: acc)
          | "]"%char :: r' => Some (JArray (rev (v :: acc)), r')
          | _ => None
          end
      end
  end
with parse_members (fuel : nat) (depth : nat) (s : list ascii)
  (acc : list (string * json)) : option (json * list ascii) :=
  match fuel with
  | O => None
  | S f =>
      match skip_ws s with
      | q :: r =>
          if Ascii.eqb q dquote then
            match parse_chars r [] with
            | None => None
            | Some (k, r1) =>
                match skip_ws r1 with
                | ":"%char :: r2 =>
                    match parse_value f depth r2 with
                    | None => None
                    | Some (v, r3) =>
                        match skip_ws r3 with
                        | ","%char :: r4 =>
                            parse_members f depth r4 ((k, v) :: acc)
                        | "}"%char :: r4 =>
                            Some (JObject (rev ((k, v) :: acc)), r4)
                        | _ => None
                        end
                    end
                | _ => None
                end
            end
          else None
      | [] => None
      end
  end.

(** A whole document: one value, white space around it, nothing after.
    The argument is a Python [str], so its bytes encode some text; bytes
    that encode none are no document. *)
Definition loads (text : string) : option json :=
  let s := list_ascii_of_string text in
  if utf8_valid s then
    match parse_value (2 * length s + 2) recursion_limit s with
    | Some (v, r) =>
        match skip_ws r with
        | [] => Some v
        | _ :: _ => None
        end
    | None => None
    end
  else None.

End Json.

(** ** Python values and the three pydantic classes *)

(** The classes declare their fields and nothing else, so pydantic
    validates them with its defaults: every declared field is required and
    members that are not declared are ignored.  Read from JSON, a [str]
    field takes a string and nothing but a string (numbers are not turned
    into text) and a [List] field takes an array.  Read from Python values,
    as the keyword arguments are, a [str] field also takes [bytes] and a
    [List] field also takes the other sequences and iterables. *)

(** The values keyword arguments can carry, as far as validation tells them
    apart.  A [set] or [frozenset] is given by its items in the order its
    iteration yields them; [PyIter] is any other finite iterable that is
    neither text nor a mapping (a [deque], a generator, a [range], a view of
    a [dict]), given by what it yields; [PyEnum] is a member of an [Enum]
    that is itself neither text nor iterable, given by the text of its
    value; [PyOther] is an object that is none of the kinds listed and
    cannot be iterated. *)
#[warnings="-register-all"]
Inductive pyval : Type :=
  | PyNone
  | PyBool (b : bool)
  | PyInt (n : Z)
  | PyFloat (lexeme : string)
  | PyStr (s : string)
  | PyBytes (b : string)
  | PyByteArray (b : string)
  | PyList (items : list pyval)
  | PyTuple (items : list pyval)
  | PySet (items : list pyval)
  | PyFrozenSet (items : list pyval)
  | PyDict (entries : list (pyval * pyval))
  | PyIter (items : list pyval)
  | PyEnum (value : string)
  | PyOther.

(** [**kwargs]: a [dict] with string keys, in insertion order. *)
Definition kwargs_t : Type := list (string * pyval).

Fixpoint dict_get (k : string) (d : kwargs_t) : option pyval :=
  match d with
  | [] => None
  | (k', v) :: rest => if String.eqb k k' then Some v else dict_get k rest
  end.

Record Audience : Type := { age : string; attributes : list string }.

Record Idea : Type :=
  { title : string; detail : string; style : string; procedure : string }.

Record Ideas : Type := { ideas : list Idea }.

(** What a [str] field makes of a Python value.  Validation is not strict:
    besides a [str], [bytes] and a [bytearray] are taken, decoded as UTF-8
    when they can be, and a member of an [Enum] is taken for the text of
    its value.  Numbers and everything else are refused. *)
Definition py_str (v : pyval) : option string :=
  match v with
  | PyStr s => Some s
  | PyBytes b | PyByteArray b =>
      if Json.utf8_valid (list_ascii_of_string b) then Some b else None
  | PyEnum s => Some s
  | _ => None
  end.

(** What a [List] field makes of a Python value: a list is taken, and so is
    a tuple, a set, a frozenset or another iterable, turned into the list of
    its items; text and mappings are refused. *)
Definition py_list (v : pyval) : option (list pyval) :=
  match v with
  | PyList items | PyTuple items | PySet items | PyFrozenSet items
  | PyIter items => Some items
  | _ => None
  end.

(** [Audience.model_validate(kwargs)]: both fields are required, [age] is
    read as a [str] field and [attributes] as a list of [str] fields; other
    keys are ignored.  [None] stands for the [ValidationError] pydantic
    raises. *)
Definition Audience_model_validate (kwargs : kwargs_t) : option Audience :=
  a ← dict_get "age" kwargs ≫= py_str;
  items ← dict_get "attributes" kwargs ≫= py_list;
  attrs ← mapM py_str items;
  Some {| age := a; attributes := attrs |}.

(** [audience.model_dump()]: a fresh [dict] holding copies of the fields. *)
Definition Audience_model_dump (a : Audience) : kwargs_t :=
  [("age", PyStr (age a)); ("attributes", PyList (PyStr <$> attributes a))].

(** A required [str] field read from a JSON object: the member must be
    there and must be a JSON string; it is taken as it is. *)
Definition str_field (k : string) (members : list (string * json))
  : option string :=
  match obj_get k members with
  | Some (JString s) => Some s
  | _ => None
  end.

(** Validation of one [Idea] from a JSON value. *)
Definition Idea_validate (j : json) : option Idea :=
  match j with
  | JObject m =>
      t ← str_field "title" m;
      d ← str_field "detail" m;
      s ← str_field "style" m;
      p ← str_field "procedure" m;
      Some {| title := t; detail := d; style := s; procedure := p |}
  | _ => None
  end.

(** Validation of [Ideas]: an object whose member [ideas] is an array, each
    element of which validates as an [Idea]. *)
Definition Ideas_validate (j : json) : option Ideas :=
  match j with
  | JObject m =>
      match obj_get "ideas" m with
      | Some (JArray items) => l ← mapM Idea_validate items; Some {| ideas := l |}
      | _ => None
      end
  | _ => None
  end.

(** [Ideas.model_validate_json(response)]; [None] stands for the
    [ValidationError] raised on text that is not JSON or not an [Ideas]. *)
Definition Ideas_model_validate_json (response : string) : option Ideas :=
  Json.loads response ≫= Ideas_validate.

(** ** The world the function runs in *)

Inductive exn : Type :=
  | ValidationError   (* pydantic's, from [model_validate] *)
  | TransportError    (* whatever [client.create] raises *)
  | PlainException.   (* the bare [Exception()] of the last line *)

(** One call of [client.create]: a single user message, and the [model]
    argument when one is passed. *)
Record request : Type := { content : string; model : option string }.

Inductive reply : Type :=
  | Content (text : string)   (* [.choices[0].message.content] *)
  | Failure.                  (* the call raises *)

(** The store holds the [Audience] objects alive (an object's address is
    its index); [requests] logs the calls made to the client, oldest
    first. *)
Record World : Type := { heap : list Audience; requests : list request }.

(** How a run ends; [Running] is a run whose fuel ran out inside the
    [while] loop. *)
Inductive outcome (A : Type) : Type :=
  | Returned (a : A)
  | Raised (e : exn)
  | Running.
Arguments Returned {A} a.
Arguments Raised {A} e.
Arguments Running {A}.

Definition M (A : Type) : Type := World → outcome A * World.

#[global] Instance M_ret : MRet M := λ A a w, (Returned a, w).
#[global] Instance M_bind : MBind M := λ A B f m w,
  match m w with
  | (Returned a, w') => f a w'
  | (Raised e, w') => (Raised e, w')
  | (Running, w') => (Running, w')
  end.

Definition raise {A} (e : exn) : M A := λ w, (Raised e, w).
Definition out_of_fuel {A} : M A := λ w, (Running, w).

(** A pydantic validation used as a statement: its error is raised. *)
Definition validated {A} (o : option A) : M A :=
  match o with
  | Some a => mret a
  | None => raise ValidationError
  end.

(** [try: ... except: ...] with a bare [except]: every exception of the
    body is caught; the effects the body had stay. *)
Definition try_except {A} (body : M A) (handler : M A) : M A := λ w,
  match body w with
  | (Raised _, w') => handler w'
  | r => r
  end.

(** Construction of an [Audience] object in the store. *)
Definition new_Audience (a : Audience) : M nat := λ w,
  (Returned (length (heap w)),
   {| heap := heap w ++ [a]; requests := requests w |}).

(** ** The function [brainstorm_ideas] *)

Definition nl : string := String "010"%char EmptyString.

(** Text with quotation marks inside is built with [q]. *)
Definition q (s : string) : string :=
  String Json.dquote s +:+ String Json.dquote EmptyString.

Section Pipeline.

(** [str(kwargs)] and [str(Ideas.model_json_schema())], as the f-strings
    print them into the prompts. *)
Variable repr : kwargs_t → string.
Variable schema : string.

(** The chat-completion service behind [client.create]: what the call
    answers, given how many calls were made before and the request. *)
Variable client : nat → request → reply.

Definition client_create (r : request) : M string := λ w,
  let w' := {| heap := heap w; requests := requests w ++ [r] |} in
  match client (length (requests w)) r with
  | Content text => (Returned text, w')
  | Failure => (Raised TransportError, w')
  end.

Definition brainstorm_request (kwargs : kwargs_t) : request :=
  {| content :=
       "You are a master visual artist. Brainstorm a diverse set of ideas that emotionally resonate with the audience. Give each idea a title, specify the artistic style, a highly detailed description, and a procedure to produce it."
       +:+ nl +:+ "{" +:+ q "audience" +:+ ":" +:+ repr kwargs +:+ "}";
     model := Some "gpt-35" |}.

Definition extraction_request (conversation : string) : request :=
  {| content :=
       "You will return a JSON object according this json schema: "
       +:+ schema +:+ " " +:+ nl +:+ nl
       +:+ " Based on the following conversation:" +:+ conversation
       +:+ " " +:+ nl +:+ nl +:+ "Return the JSON object only.";
     model := None |}.

(** The [while num_try < 3] loop and the [raise] after it.  The body never
    assigns [num_try], so each further turn runs with the same value.
    [fuel] bounds the number of turns a run is followed for. *)
Fixpoint extractor_loop (fuel : nat) (num_try : Z) (conversation : string)
  : M Ideas :=
  match fuel with
  | O => out_of_fuel
  | S fuel' =>
      if num_try <? 3 then
        response ← client_create (extraction_request conversation);
        try_except
          (validated (Ideas_model_validate_json response))
          (extractor_loop fuel' num_try conversation)
      else raise PlainException
  end.

Definition brainstorm_ideas (fuel : nat) (kwargs : kwargs_t) : M Ideas :=
  a ← validated (Audience_model_validate kwargs);
  _ ← new_Audience a;
  conversation ← client_create (brainstorm_request kwargs);
  let num_try := 0 in
  extractor_loop fuel num_try conversation.

(** The last cell: the caller's [audience] object lives at address
    [addr]; its [model_dump()] is unpacked into the keyword arguments of
    [brainstorm_ideas].  An address with no object behind it is no state of
    the notebook; nothing is run then. *)
Definition call_cell (fuel : nat) (addr : nat) : M Ideas := λ w,
  match heap w !! addr with
  | Some audience => brainstorm_ideas fuel (Audience_model_dump audience) w
  | None => (Raised PlainException, w)
  end.

End Pipeline.

(** ** What the schema of [Ideas] asks of a JSON value *)

(** [Ideas.model_json_schema()] requires an object with a member [ideas]
    that is an array; each item must be an object with the four required
    members, each of type string. *)
Definition Idea_fields : list string := ["title"; "detail"; "style"; "procedure"].

Definition is_string_member (m : list (string * json)) (k : string) : bool :=
  match obj_get k m with
  | Some (JString _) => true
  | _ => false
  end.

Definition Idea_schema (j : json) : bool :=
  match j with
  | JObject m => forallb (is_string_member m) Idea_fields
  | _ => false
  end.

Definition Ideas_schema (j : json) : bool :=
  match j with
  | JObject m =>
      match obj_get "ideas" m with
      | Some (JArray items) => forallb Idea_schema items
      | _ => false
      end
  | _ => false
  end.

(** A record agrees with a JSON value when every field holds exactly the
    string the document has under that name. *)
Definition Idea_matches (j : json) (i : Idea) : Prop :=
  ∃ m, j = JObject m
       ∧ obj_get "title" m = Some (JString (title i))
       ∧ obj_get "detail" m = Some (JString (detail i))
       ∧ obj_get "style" m = Some (JString (style i))
       ∧ obj_get "procedure" m = Some (JString (procedure i)).

Definition Ideas_matches (j : json) (v : Ideas) : Prop :=
  ∃ m items, j = JObject m
             ∧ obj_get "ideas" m = Some (JArray items)
             ∧ Forall2 Idea_matches items (ideas v).

(** A reply the loop cannot use: text that is not JSON, or JSON that is not
    an [Ideas]. *)
Definition invalid_reply (r : reply) : Prop :=
  ∃ text, r = Content text ∧ Ideas_model_validate_json text = None.

(** The world after the requests [rs] were sent. *)
Definition logged (w : World) (rs : list request) : World :=
  {| heap := heap w; requests := requests w ++ rs |}.

Definition nonempty_Idea (i : Idea) : Prop :=
  title i ≠ EmptyString ∧ detail i ≠ EmptyString
  ∧ style i ≠ EmptyString ∧ procedure i ≠ EmptyString.

(** The JSON rendering of a record, one member per field. *)
Definition Idea_json (i : Idea) : json :=
  JObject [("title", JString (title i)); ("detail", JString (detail i));
           ("style", JString (style i)); ("procedure", JString (procedure i))].

Definition Ideas_json (v : Ideas) : json :=
  JObject [("ideas", JArray (Idea_json <$> ideas v))].

(** Removal of the members the classes do not declare. *)
Definition declared (known : list string) (m : list (string * json))
  : list (string * json) :=
  filter (λ kv, kv.1 ∈ known) m.

Definition strip_Idea (j : json) : json :=
  match j with
  | JObject m => JObject (declared Idea_fields m)
  | _ => j
  end.

Definition strip_items (x : json) : json :=
  match x with
  | JArray items => JArray (strip_Idea <$> items)
  | _ => x
  end.

Definition strip_Ideas (j : json) : json :=
  match j with
  | JObject m => JObject (prod_map id strip_items <$> declared ["ideas"] m)
  | _ => j
  end.

(** The world once the audience was validated and the first request sent. *)
Definition entered (w : World) (a : Audience) (first : request) : World :=
  {| heap := heap w ++ [a]; requests := requests w ++ [first] |}.

(** The world after the first request and [n] extraction requests. *)
Definition after_attempts (w : World) (a : Audience) (first ask : request)
  (n : nat) : World :=
  {| heap := heap w ++ [a]; requests := requests w ++ first :: replicate n ask |}.

(** ** Scenarios *)

Definition scenarioA_text : string :=
  "{" +:+ q "ideas" +:+ ":[{" +:+ q "title" +:+ ":" +:+ q "T" +:+ ","
      +:+ q "detail" +:+ ":" +:+ q "D" +:+ ","
      +:+ q "style" +:+ ":" +:+ q "S" +:+ ","
      +:+ q "procedure" +:+ ":" +:+ q "P" +:+ "}]}".

Definition scenarioB_text : string :=
  "{" +:+ q "ideas" +:+ ": " +:+ q "not-a-list" +:+ "}".

(** All four fields present as strings, all empty. *)
Definition empty_fields_text : string :=
  "{" +:+ q "ideas" +:+ ":[{" +:+ q "title" +:+ ":" +:+ q EmptyString +:+ ","
      +:+ q "detail" +:+ ":" +:+ q EmptyString +:+ ","
      +:+ q "style" +:+ ":" +:+ q EmptyString +:+ ","
      +:+ q "procedure" +:+ ":" +:+ q EmptyString +:+ "}]}".

(** Scenario A's document with a member the classes do not declare at the
    top level and another inside the idea. *)
Definition extra_fields_text : string :=
  "{" +:+ q "note" +:+ ": 1, " +:+ q "ideas" +:+ ":[{" +:+ q "title" +:+ ":" +:+ q "T" +:+ ","
      +:+ q "mood" +:+ ":[" +:+ q "calm" +:+ "],"
      +:+ q "detail" +:+ ":" +:+ q "D" +:+ ","
      +:+ q "style" +:+ ":" +:+ q "S" +:+ ","
      +:+ q "procedure" +:+ ":" +:+ q "P" +:+ "}]}".

Definition scenario_audience : Audience :=
  {| age := "18-22"; attributes := ["energetic"; "undergraduate"] |}.

(** The caller's world: the audience object at address 0, nothing sent. *)
Definition scenario_world : World :=
  {| heap := [scenario_audience]; requests := [] |}.

(** Stand-ins for the two printed dictionaries; no result below depends on
    what they are. *)
Definition scenario_repr (_ : kwargs_t) : string :=
  "{'age': '18-22', 'attributes': ['energetic', 'undergraduate']}".
Definition scenario_schema : string := "{'title': 'Ideas', 'type': 'object'}".

(** Mock clients: the first call answers with prose; the extraction calls
    answer as the scenario says. *)
Definition prose : string := "Here are some ideas for your audience.".

Definition client_always (text : string) (n : nat) (_ : request) : reply :=
  match n with
  | O => Content prose
  | S _ => Content text
  end.

Definition client_then (first rest : string) (n : nat) (_ : request) : reply :=
  match n with
  | O => Content prose
  | 1%nat => Content first
  | _ => Content rest
  end.

Definition client_down (_ : nat) (_ : request) : reply := Failure.

(** The run of the last cell on the scenario audience, against a client. *)
Definition scenario_run (client : nat → request → reply) (fuel : nat)
  : outcome Ideas * World :=
  call_cell scenario_repr scenario_schema client fuel 0 scenario_world.

Definition scenario_first : request :=
  brainstorm_request scenario_repr (Audience_model_dump scenario_audience).

Definition scenario_ask : request := extraction_request scenario_schema prose.

(** Whether a JSON value is an object. *)
Definition is_object (j : json) : bool :=
  match j with
  | JObject _ => true
  | _ => false
  end.

(** The Python types a [str] field can be filled from, and those a [List]
    field can. *)
Definition text_type (v : pyval) : bool :=
  match v with
  | PyStr _ | PyBytes _ | PyByteArray _ | PyEnum _ => true
  | _ => false
  end.

Definition sequence_type (v : pyval) : bool :=
  match v with
  | PyList _ | PyTuple _ | PySet _ | PyFrozenSet _ | PyIter _ => true
  | _ => false
  end.

(** The keyword arguments the class [Audience] declares. *)
Definition Audience_fields : list string := ["age"; "attributes"].

Definition declared_kwargs (kwargs : list (string * pyval))
  : list (string * pyval) :=
  filter (λ kv, kv.1 ∈ Audience_fields) kwargs.

(** Text made of white space only, the empty text included. *)
Definition blank (text : string) : bool :=
  forallb Json.is_ws (list_ascii_of_string text).

(** A client that answers the first call with prose and the next [k] calls
    with [text], and is out of reach from then on. *)
Definition client_broken_after (k : nat) (text : string)
  (n : nat) (_ : request) : reply :=
  match n with
  | O => Content prose
  | S m => if (m <? k)%nat then Content text else Failure
  end.

(** What the code asks of the requests a call sends: the first one names
    the model [gpt-35], the others name none. *)
Definition models_as_written (sent : list request) : Prop :=
  match sent with
  | [] => True
  | r :: rest => model r = Some "gpt-35" ∧ Forall (λ x, model x = None) rest
  end.

(** ** One turn of the loop *)

Section Loop.

Variable schema : string.
Variable client : nat → request → reply.

Local Abbreviation loop := (extractor_loop schema client).
Local Abbreviation ask := (extraction_request schema).

Lemma logged_logged w rs1 rs2 :
  logged (logged w rs1) rs2 = logged w (rs1 ++ rs2).
Proof. unfold logged; simpl. by rewrite <- app_assoc. Qed.

Lemma logged_length w rs :
  length (requests (logged w rs)) = (length (requests w) + length rs)%nat.
Proof. unfold logged; simpl. by rewrite length_app. Qed.

Lemma client_create_content r text w :
  client (length (requests w)) r = Content text →
  client_create client r w = (Returned text, logged w [r]).
Proof. intros H. unfold client_create. by rewrite H. Qed.

Lemma client_create_failure r w :
  client (length (requests w)) r = Failure →
  client_create client r w = (Raised TransportError, logged w [r]).
Proof. intros H. unfold client_create. by rewrite H. Qed.

(** A reply that does not validate is dropped and the next turn starts,
    with [num_try] as it was. *)
Lemma loop_turn_invalid fuel num_try conv w :
  num_try < 3 →
  invalid_reply (client (length (requests w)) (ask conv)) →
  loop (S fuel) num_try conv w = loop fuel num_try conv (logged w [ask conv]).
Proof.
  intros Hlt (text & Hc & Hv). simpl.
  apply Z.ltb_lt in Hlt. rewrite Hlt.
  unfold mbind, M_bind. rewrite (client_create_content _ _ _ Hc).
  unfold try_except. by rewrite Hv.
Qed.

(** A reply that validates ends the call at once. *)
Lemma loop_turn_valid fuel num_try conv w text v :
  num_try < 3 →
  client (length (requests w)) (ask conv) = Content text →
  Ideas_model_validate_json text = Some v →
  loop (S fuel) num_try conv w = (Returned v, logged w [ask conv]).
Proof.
  intros Hlt Hc Hv. simpl.
  apply Z.ltb_lt in Hlt. rewrite Hlt.
  unfold mbind, M_bind. rewrite (client_create_content _ _ _ Hc).
  unfold try_except. by rewrite Hv.
Qed.

(** [client.create] is outside the [try]: its exception leaves the loop. *)
Lemma loop_turn_failure fuel num_try conv w :
  num_try < 3 →
  client (length (requests w)) (ask conv) = Failure →
  loop (S fuel) num_try conv w = (Raised TransportError, logged w [ask conv]).
Proof.
  intros Hlt Hc. simpl.
  apply Z.ltb_lt in Hlt. rewrite Hlt.
  unfold mbind, M_bind. by rewrite (client_create_failure _ _ Hc).
Qed.

(** [k] unusable replies in a row cost [k] turns and [k] requests, and
    leave the loop where it started. *)
Lemma loop_invalid_prefix k : ∀ fuel num_try conv w,
  num_try < 3 →
  (∀ i, (i < k)%nat →
        invalid_reply (client (length (requests w) + i) (ask conv))) →
  loop (k + fuel) num_try conv w
  = loop fuel num_try conv (logged w (replicate k (ask conv))).
Proof.
  induction k as [|k IH]; intros fuel num_try conv w Hlt Hbad.
  - simpl. unfold logged. rewrite app_nil_r. by destruct w.
  - change (S k + fuel)%nat with (S (k + fuel)).
    rewrite loop_turn_invalid; [|done|].
    + rewrite IH; [|done|].
      * by rewrite logged_logged.
      * intros i Hi. rewrite logged_length. simpl.
        replace (length (requests w) + 1 + i)%nat
          with (length (requests w) + S i)%nat by lia.
        apply Hbad. lia.
    + specialize (Hbad O). rewrite Nat.add_0_r in Hbad. apply Hbad. lia.
Qed.

(** Whatever the loop returns was validated from the reply to its last
    request, and every reply before that one was unusable. *)
Lemma loop_returned_inv fuel : ∀ num_try conv w v w',
  loop fuel num_try conv w = (Returned v, w') →
  ∃ k text,
    w' = logged w (replicate (S k) (ask conv))
    ∧ client (length (requests w) + k) (ask conv) = Content text
    ∧ Ideas_model_validate_json text = Some v
    ∧ ∀ i, (i < k)%nat →
           invalid_reply (client (length (requests w) + i) (ask conv)).
Proof.
  induction fuel as [|fuel IH]; intros num_try conv w v w' H.
  - discriminate.
  - destruct (Z.ltb_spec num_try 3) as [Hlt|Hge].
    2:{ simpl in H. apply Z.ltb_ge in Hge. rewrite Hge in H. discriminate. }
    destruct (client (length (requests w)) (ask conv)) as [text|] eqn:Hc.
    2:{ rewrite loop_turn_failure in H by done. discriminate. }
    destruct (Ideas_model_validate_json text) as [v0|] eqn:Hv.
    + rewrite (loop_turn_valid _ _ _ _ _ _ Hlt Hc Hv) in H.
      simplify_eq. exists O, text. rewrite Nat.add_0_r.
      split_and!; [done..|]. intros i Hi. lia.
    + rewrite loop_turn_invalid in H; [|done|by exists text].
      apply IH in H as (k & text' & -> & Hc' & Hv' & Hbad).
      exists (S k), text'. rewrite logged_length in Hc'. simpl in Hc'.
      split_and!.
      * by rewrite logged_logged.
      * by replace (length (requests w) + S k)%nat
          with (length (requests w) + 1 + k)%nat by lia.
      * done.
      * intros [|i] Hi.
        -- rewrite Nat.add_0_r. by exists text.
        -- specialize (Hbad i). rewrite logged_length in Hbad. simpl in Hbad.
           replace (length (requests w) + S i)%nat
             with (length (requests w) + 1 + i)%nat by lia.
           apply Hbad. lia.
Qed.

(** No run of the loop ends in a [ValidationError]. *)
Lemma loop_no_validation_error fuel : ∀ num_try conv w,
  (loop fuel num_try conv w).1 ≠ Raised ValidationError.
Proof.
  induction fuel as [|fuel IH]; intros num_try conv w; [done|].
  destruct (Z.ltb_spec num_try 3) as [Hlt|Hge].
  2:{ simpl. apply Z.ltb_ge in Hge. by rewrite Hge. }
  destruct (client (length (requests w)) (ask conv)) as [text|] eqn:Hc.
  2:{ by rewrite loop_turn_failure. }
  destruct (Ideas_model_validate_json text) as [v0|] eqn:Hv.
  - by rewrite (loop_turn_valid _ _ _ _ _ _ Hlt Hc Hv).
  - rewrite loop_turn_invalid; [apply IH|done|by exists text].
Qed.

(** Entered with [num_try] below 3, the loop never gets to the [raise]
    that follows it. *)
Lemma loop_no_plain_exception fuel : ∀ num_try conv w,
  num_try < 3 →
  (loop fuel num_try conv w).1 ≠ Raised PlainException.
Proof.
  induction fuel as [|fuel IH]; intros num_try conv w Hlt; [done|].
  destruct (client (length (requests w)) (ask conv)) as [text|] eqn:Hc.
  2:{ by rewrite loop_turn_failure. }
  destruct (Ideas_model_validate_json text) as [v0|] eqn:Hv.
  - by rewrite (loop_turn_valid _ _ _ _ _ _ Hlt Hc Hv).
  - rewrite loop_turn_invalid; [by apply IH|done|by exists text].
Qed.

(** The loop only appends to the log and leaves the store alone. *)
Lemma loop_heap fuel : ∀ num_try conv w,
  heap (loop fuel num_try conv w).2 = heap w.
Proof.
  induction fuel as [|fuel IH]; intros num_try conv w; [done|].
  destruct (Z.ltb_spec num_try 3) as [Hlt|Hge].
  2:{ simpl. apply Z.ltb_ge in Hge. by rewrite Hge. }
  destruct (client (length (requests w)) (ask conv)) as [text|] eqn:Hc.
  2:{ by rewrite loop_turn_failure. }
  destruct (Ideas_model_validate_json text) as [v0|] eqn:Hv.
  - by rewrite (loop_turn_valid _ _ _ _ _ _ Hlt Hc Hv).
  - rewrite loop_turn_invalid; [|done|by exists text]. by rewrite IH.
Qed.

(** The loop only ever adds to the log. *)
Lemma loop_requests fuel : ∀ num_try conv w,
  requests w `prefix_of` requests (loop fuel num_try conv w).2.
Proof.
  induction fuel as [|fuel IH]; intros num_try conv w; [done|].
  destruct (Z.ltb_spec num_try 3) as [Hlt|Hge].
  2:{ simpl. apply Z.ltb_ge in Hge. by rewrite Hge. }
  destruct (client (length (requests w)) (ask conv)) as [text|] eqn:Hc.
  2:{ rewrite loop_turn_failure by done. by apply prefix_app_r. }
  destruct (Ideas_model_validate_json text) as [v0|] eqn:Hv.
  - rewrite (loop_turn_valid _ _ _ _ _ _ Hlt Hc Hv). by apply prefix_app_r.
  - rewrite loop_turn_invalid; [|done|by exists text].
    etrans; [|apply IH]. by apply prefix_app_r.
Qed.

(** A turn taken with [num_try] below 3 sends its request, whatever comes
    of the reply. *)
Lemma loop_turn_sends fuel num_try conv w :
  num_try < 3 →
  requests (logged w [ask conv])
    `prefix_of` requests (loop (S fuel) num_try conv w).2.
Proof.
  intros Hlt.
  destruct (client (length (requests w)) (ask conv)) as [text|] eqn:Hc.
  2:{ by rewrite loop_turn_failure. }
  destruct (Ideas_model_validate_json text) as [v0|] eqn:Hv.
  - by rewrite (loop_turn_valid _ _ _ _ _ _ Hlt Hc Hv).
  - rewrite loop_turn_invalid; [|done|by exists text]. apply loop_requests.
Qed.

End Loop.

(** ** Validation against the schema *)

Section Validation.

Implicit Types (m : list (string * json)) (j : json) (i : Idea) (v : Ideas).

Lemma forallb_true_Forall {A} (f : A → bool) (l : list A) :
  forallb f l = true ↔ Forall (λ x, f x = true) l.
Proof.
  induction l as [|x l IH]; simpl; [by split|].
  rewrite andb_true_iff, IH, Forall_cons. done.
Qed.

Lemma str_field_Some k m s :
  str_field k m = Some s ↔ obj_get k m = Some (JString s).
Proof.
  unfold str_field. destruct (obj_get k m) as [[]|]; naive_solver.
Qed.

Lemma is_string_member_Some m k :
  is_string_member m k = true ↔ is_Some (str_field k m).
Proof.
  unfold is_string_member, str_field.
  destruct (obj_get k m) as [[]|]; split; intros H;
    try done; try (by eexists); by destruct H.
Qed.

Lemma Idea_validate_matches j i : Idea_validate j = Some i ↔ Idea_matches j i.
Proof.
  unfold Idea_matches. split.
  - destruct j as [| | | | |m]; try done. simpl. intros H.
    destruct (str_field "title" m) as [t|] eqn:Ht; [|done].
    destruct (str_field "detail" m) as [d|] eqn:Hd; [|done].
    destruct (str_field "style" m) as [s|] eqn:Hs; [|done].
    destruct (str_field "procedure" m) as [p|] eqn:Hp; [|done].
    simpl in H. simplify_eq. exists m. simpl.
    by rewrite <- !str_field_Some.
  - intros (m & -> & Ht & Hd & Hs & Hp). simpl.
    apply str_field_Some in Ht, Hd, Hs, Hp.
    rewrite Ht, Hd, Hs, Hp. simpl. by destruct i.
Qed.

Lemma Ideas_validate_matches j v : Ideas_validate j = Some v ↔ Ideas_matches j v.
Proof.
  unfold Ideas_matches. split.
  - destruct j as [| | | | |m]; try done. simpl.
    destruct (obj_get "ideas" m) as [[| | | |items|]|] eqn:Hg; try done.
    intros H. destruct (mapM Idea_validate items) as [l|] eqn:Hl; [|done].
    simpl in H. simplify_eq. exists m, items. split_and!; [done..|]. simpl.
    apply mapM_Some in Hl.
    eapply Forall2_impl; [exact Hl|]. intros x y. apply Idea_validate_matches.
  - intros (m & items & -> & Hg & Hall). simpl. rewrite Hg.
    assert (mapM Idea_validate items = Some (ideas v)) as ->.
    { apply mapM_Some. eapply Forall2_impl; [exact Hall|].
      intros x y. apply Idea_validate_matches. }
    simpl. by destruct v.
Qed.

Lemma Idea_schema_validate j : Idea_schema j = true ↔ is_Some (Idea_validate j).
Proof.
  destruct j as [| | | | |m]; simpl;
    try (split; [done|by intros [? ?]]).
  rewrite !andb_true_iff, !is_string_member_Some.
  destruct (str_field "title" m), (str_field "detail" m),
    (str_field "style" m), (str_field "procedure" m); simpl;
    split; try (by intros (?&?&?&?&?)); try (by intros [? ?]);
    try (intros _; by eexists); try naive_solver.
  all: intros (H1 & H2 & H3 & H4 & _);
    try (by destruct H1); try (by destruct H2);
    try (by destruct H3); by destruct H4.
Qed.

Lemma Ideas_schema_validate j : Ideas_schema j = true ↔ is_Some (Ideas_validate j).
Proof.
  destruct j as [| | | | |m]; simpl; try (split; [done|by intros [? ?]]).
  destruct (obj_get "ideas" m) as [[| | | |items|]|];
    try (split; [done|by intros [? ?]]).
  rewrite forallb_true_Forall.
  transitivity (is_Some (mapM Idea_validate items)).
  - rewrite mapM_is_Some. apply Forall_iff. intros x. apply Idea_schema_validate.
  - destruct (mapM Idea_validate items) as [l|]; simpl; split; intros [x Hx];
      done.
Qed.

(** One item that is not an [Idea] makes the whole document fail. *)
Lemma Ideas_validate_all_or_nothing m items bad :
  obj_get "ideas" m = Some (JArray items) →
  bad ∈ items →
  Idea_schema bad = false →
  Ideas_validate (JObject m) = None.
Proof.
  intros Hg Hin Hbad. simpl. rewrite Hg.
  assert (mapM Idea_validate items = None) as ->; [|done].
  apply mapM_None_2. apply Exists_exists. exists bad. split; [done|].
  destruct (Idea_validate bad) eqn:E; [|done].
  assert (Idea_schema bad = true) by (apply Idea_schema_validate; by eexists).
  congruence.
Qed.

Lemma Idea_validate_json i : Idea_validate (Idea_json i) = Some i.
Proof. by destruct i. Qed.

Lemma Ideas_validate_json v : Ideas_validate (Ideas_json v) = Some v.
Proof.
  destruct v as [l]. unfold Ideas_json. simpl.
  assert (mapM Idea_validate (Idea_json <$> l) = Some l) as ->; [|done].
  apply mapM_Some. induction l; constructor; [apply Idea_validate_json|done].
Qed.

(** Members under other names do not change what a lookup finds. *)
Lemma obj_get_declared known k m :
  k ∈ known → obj_get k (declared known m) = obj_get k m.
Proof.
  intros Hk. unfold declared. induction m as [|[k' x] m IH]; [done|].
  rewrite filter_cons. simpl. case_decide as Hin; simpl.
  - by rewrite IH.
  - rewrite IH. destruct (String.eqb_spec k k') as [->|]; [done|].
    by destruct (obj_get k m).
Qed.

Lemma Idea_validate_strip j : Idea_validate (strip_Idea j) = Idea_validate j.
Proof.
  destruct j as [| | | | |m]; try done. simpl. unfold str_field.
  rewrite !obj_get_declared; [done|compute_done..].
Qed.

Lemma obj_get_cons k k' x m :
  obj_get k ((k', x) :: m)
  = match obj_get k m with
    | Some y => Some y
    | None => if String.eqb k k' then Some x else None
    end.
Proof. done. Qed.

Lemma obj_get_fmap (g : json → json) k m :
  obj_get k (prod_map id g <$> m) = g <$> obj_get k m.
Proof.
  induction m as [|[k' x] m IH]; [done|].
  rewrite fmap_cons. unfold prod_map at 1. simpl fst. simpl snd.
  rewrite !obj_get_cons, IH. destruct (obj_get k m); [done|].
  unfold id. simpl. by destruct (String.eqb k k').
Qed.

Lemma Ideas_validate_strip j : Ideas_validate (strip_Ideas j) = Ideas_validate j.
Proof.
  destruct j as [| | | | |m]; try done. simpl.
  rewrite obj_get_fmap, obj_get_declared by compute_done.
  destruct (obj_get "ideas" m) as [[| | | |items|]|]; try done. simpl.
  assert (mapM Idea_validate (strip_Idea <$> items) = mapM Idea_validate items)
    as ->; [|done].
  induction items as [|x items IH]; [done|].
  rewrite fmap_cons. simpl. rewrite Idea_validate_strip.
  destruct (Idea_validate x); simpl; [|done]. by rewrite IH.
Qed.

(** The dictionary [model_dump] makes of an [Audience] validates back to
    it, so the call of the last cell always passes the first line. *)
Lemma Audience_model_dump_validates (a : Audience) :
  Audience_model_validate (Audience_model_dump a) = Some a.
Proof.
  destruct a as [ag attrs]. unfold Audience_model_validate. simpl.
  assert (mapM py_str (PyStr <$> attrs) = Some attrs) as ->; [|done].
  apply mapM_Some. induction attrs; by constructor.
Qed.

End Validation.

(** ** The whole call *)

Section Call.

Variable repr : kwargs_t → string.
Variable schema : string.
Variable client : nat → request → reply.

Local Abbreviation run := (brainstorm_ideas repr schema client).
Local Abbreviation loop := (extractor_loop schema client).
Local Abbreviation first := (brainstorm_request repr).
Local Abbreviation ask := (extraction_request schema).

Lemma entered_logged w a r n rs :
  logged (entered w a r) (replicate n rs) = after_attempts w a r rs n.
Proof. unfold logged, entered, after_attempts. simpl. by rewrite <- app_assoc. Qed.

Lemma entered_length w a r :
  length (requests (entered w a r)) = S (length (requests w)).
Proof. unfold entered. simpl. rewrite length_app. simpl. lia. Qed.

Lemma run_invalid_audience fuel kwargs w :
  Audience_model_validate kwargs = None →
  run fuel kwargs w = (Raised ValidationError, w).
Proof.
  intros Ha. unfold brainstorm_ideas, mbind, M_bind, validated. by rewrite Ha.
Qed.

Lemma run_enter fuel kwargs a conv w :
  Audience_model_validate kwargs = Some a →
  client (length (requests w)) (first kwargs) = Content conv →
  run fuel kwargs w = loop fuel 0 conv (entered w a (first kwargs)).
Proof.
  intros Ha Hc. unfold brainstorm_ideas, mbind, M_bind, validated.
  rewrite Ha. simpl. unfold client_create. simpl. by rewrite Hc.
Qed.

Lemma run_first_failure fuel kwargs a w :
  Audience_model_validate kwargs = Some a →
  client (length (requests w)) (first kwargs) = Failure →
  run fuel kwargs w = (Raised TransportError, entered w a (first kwargs)).
Proof.
  intros Ha Hc. unfold brainstorm_ideas, mbind, M_bind, validated.
  rewrite Ha. simpl. unfold client_create. simpl. by rewrite Hc.
Qed.

(** Replies that never validate: every turn sends one more request and the
    loop is entered again. *)
Lemma run_all_invalid kwargs a conv w :
  Audience_model_validate kwargs = Some a →
  client (length (requests w)) (first kwargs) = Content conv →
  (∀ i, invalid_reply (client (S (length (requests w)) + i) (ask conv))) →
  ∀ fuel,
    run fuel kwargs w
    = (Running, after_attempts w a (first kwargs) (ask conv) fuel).
Proof.
  intros Ha Hc Hbad fuel. rewrite (run_enter _ _ _ _ _ Ha Hc).
  replace fuel with (fuel + 0)%nat at 1 by lia.
  rewrite loop_invalid_prefix; [|done|].
  - simpl. by rewrite entered_logged.
  - intros i _. rewrite entered_length. apply Hbad.
Qed.

(** [k] unusable replies, then one that validates. *)
Lemma run_first_valid kwargs a conv w k text v fuel :
  Audience_model_validate kwargs = Some a →
  client (length (requests w)) (first kwargs) = Content conv →
  (∀ i, (i < k)%nat →
        invalid_reply (client (S (length (requests w)) + i) (ask conv))) →
  client (S (length (requests w)) + k) (ask conv) = Content text →
  Ideas_model_validate_json text = Some v →
  (k < fuel)%nat →
  run fuel kwargs w
  = (Returned v, after_attempts w a (first kwargs) (ask conv) (S k)).
Proof.
  intros Ha Hc Hbad Hk Hv Hfuel. rewrite (run_enter _ _ _ _ _ Ha Hc).
  replace fuel with (k + S (fuel - S k))%nat by lia.
  rewrite loop_invalid_prefix; [|done|].
  - erewrite loop_turn_valid; [|done| |exact Hv].
    + rewrite logged_logged, <- entered_logged. do 2 f_equal.
      change [ask conv] with (replicate 1 (ask conv)).
      rewrite <- replicate_add. f_equal. lia.
    + rewrite logged_length, length_replicate, entered_length. exact Hk.
  - intros i Hi. rewrite entered_length. by apply Hbad.
Qed.

(** After [k] unusable replies the next extraction request is sent. *)
Lemma run_next_attempt kwargs a conv w k fuel :
  Audience_model_validate kwargs = Some a →
  client (length (requests w)) (first kwargs) = Content conv →
  (∀ i, (i < k)%nat →
        invalid_reply (client (S (length (requests w)) + i) (ask conv))) →
  (k < fuel)%nat →
  requests (after_attempts w a (first kwargs) (ask conv) (S k))
    `prefix_of` requests (run fuel kwargs w).2.
Proof.
  intros Ha Hc Hbad Hfuel. rewrite (run_enter _ _ _ _ _ Ha Hc).
  replace fuel with (k + S (fuel - S k))%nat by lia.
  rewrite loop_invalid_prefix; [|done|].
  - etrans; [|by apply loop_turn_sends].
    rewrite logged_logged, <- entered_logged.
    change [ask conv] with (replicate 1 (ask conv)).
    rewrite <- replicate_add. by replace (k + 1)%nat with (S k) by lia.
  - intros i Hi. rewrite entered_length. by apply Hbad.
Qed.

(** No call ends with the exception of the last line. *)
Lemma run_no_plain_exception fuel kwargs w :
  (run fuel kwargs w).1 ≠ Raised PlainException.
Proof.
  destruct (Audience_model_validate kwargs) as [a|] eqn:Ha.
  2:{ by rewrite run_invalid_audience. }
  destruct (client (length (requests w)) (first kwargs)) as [conv|] eqn:Hc.
  2:{ by rewrite (run_first_failure _ _ _ _ Ha Hc). }
  rewrite (run_enter _ _ _ _ _ Ha Hc). by apply loop_no_plain_exception.
Qed.

(** What a returned value tells about the run. *)
Lemma run_returned_inv fuel kwargs w v w' :
  run fuel kwargs w = (Returned v, w') →
  ∃ a conv k text,
    Audience_model_validate kwargs = Some a
    ∧ client (length (requests w)) (first kwargs) = Content conv
    ∧ w' = after_attempts w a (first kwargs) (ask conv) (S k)
    ∧ client (S (length (requests w)) + k) (ask conv) = Content text
    ∧ Ideas_model_validate_json text = Some v
    ∧ ∀ i, (i < k)%nat →
           invalid_reply (client (S (length (requests w)) + i) (ask conv)).
Proof.
  intros H.
  destruct (Audience_model_validate kwargs) as [a|] eqn:Ha.
  2:{ rewrite run_invalid_audience in H by done. discriminate. }
  destruct (client (length (requests w)) (first kwargs)) as [conv|] eqn:Hc.
  2:{ rewrite (run_first_failure _ _ _ _ Ha Hc) in H. discriminate. }
  rewrite (run_enter _ _ _ _ _ Ha Hc) in H.
  apply loop_returned_inv in H as (k & text & -> & Hk & Hv & Hbad).
  rewrite entered_length in Hk.
  exists a, conv, k, text. split_and!; try done.
  - by rewrite entered_logged.
  - intros i Hi. specialize (Hbad i Hi). by rewrite entered_length in Hbad.
Qed.

(** The call allocates at most its own [Audience]; what was in the store
    stays where and as it was. *)
Lemma run_heap fuel kwargs w : heap w `prefix_of` heap (run fuel kwargs w).2.
Proof.
  destruct (Audience_model_validate kwargs) as [a|] eqn:Ha.
  2:{ by rewrite run_invalid_audience. }
  destruct (client (length (requests w)) (first kwargs)) as [conv|] eqn:Hc.
  2:{ rewrite (run_first_failure _ _ _ _ Ha Hc). simpl. by apply prefix_app_r. }
  rewrite (run_enter _ _ _ _ _ Ha Hc), loop_heap. simpl. by apply prefix_app_r.
Qed.

End Call.

(** ** Properties of [brainstorm_ideas] *)

(** C1. What the code does when every reply to an extraction request fails
    to parse or to validate: whatever the number of turns the loop is
    followed for, it sent one extraction request per turn and is still
    inside the loop.  It does not stop after three attempts and never
    reaches the [raise] after the loop. *)
Theorem all_invalid_loop_never_raises repr schema client kwargs a conv w :
  Audience_model_validate kwargs = Some a →
  client (length (requests w)) (brainstorm_request repr kwargs) = Content conv →
  (∀ i, invalid_reply (client (S (length (requests w)) + i)%nat
                              (extraction_request schema conv))) →
  ∀ fuel,
    brainstorm_ideas repr schema client fuel kwargs w
    = (Running,
       after_attempts w a (brainstorm_request repr kwargs)
         (extraction_request schema conv) fuel).
Proof. apply run_all_invalid. Qed.

Lemma all_invalid_loop_never_raises_witness :
  brainstorm_ideas scenario_repr scenario_schema (client_always scenarioB_text)
    4 (Audience_model_dump scenario_audience) scenario_world
  = (Running,
     after_attempts scenario_world scenario_audience scenario_first
       scenario_ask 4).
Proof.
  apply (all_invalid_loop_never_raises scenario_repr scenario_schema
           (client_always scenarioB_text)
           (Audience_model_dump scenario_audience) scenario_audience prose
           scenario_world).
  - reflexivity.
  - reflexivity.
  - intros i. exists scenarioB_text. split; [reflexivity | vm_compute; reflexivity].
Defined.

(** C2. Scenario B's client, which answers every extraction request with
    [{"ideas": "not-a-list"}]: for every number of turns the run is still
    going, with as many extraction requests sent as turns taken.  No bound
    on the attempts holds, three or other. *)
Theorem scenarioB_attempts_unbounded : ∀ fuel,
  scenario_run (client_always scenarioB_text) fuel
  = (Running,
     {| heap := [scenario_audience; scenario_audience];
        requests := scenario_first :: replicate fuel scenario_ask |}).
Proof.
  intros fuel. unfold scenario_run, call_cell. simpl.
  rewrite (run_all_invalid scenario_repr scenario_schema
             (client_always scenarioB_text) _ scenario_audience prose);
    [done..|].
  intros i. exists scenarioB_text. split; [done | by vm_compute].
Qed.

(** C3. When the first [k] replies to the extraction request fail to
    validate and the next one, still one of the three attempts, validates as
    [v], the call returns [v] and has sent exactly [k + 1] extraction
    requests; with [k = 1], two requests and no third. *)
Theorem first_valid_reply_returned repr schema client kwargs a conv w k text v fuel :
  Audience_model_validate kwargs = Some a →
  client (length (requests w)) (brainstorm_request repr kwargs) = Content conv →
  (∀ i, (i < k)%nat →
        invalid_reply (client (S (length (requests w)) + i)%nat
                              (extraction_request schema conv))) →
  client (S (length (requests w)) + k)%nat (extraction_request schema conv)
  = Content text →
  Ideas_model_validate_json text = Some v →
  (k < 3)%nat →
  (k < fuel)%nat →
  brainstorm_ideas repr schema client fuel kwargs w
  = (Returned v,
     after_attempts w a (brainstorm_request repr kwargs)
       (extraction_request schema conv) (S k)).
Proof. intros Ha Hc Hbad Hk Hv _ Hf. by eapply run_first_valid. Qed.

Lemma first_valid_reply_returned_witness :
  brainstorm_ideas scenario_repr scenario_schema
    (client_then scenarioB_text scenarioA_text)
    3 (Audience_model_dump scenario_audience) scenario_world
  = (Returned {| ideas := [ {| title := "T"; detail := "D"; style := "S";
                               procedure := "P" |} ] |},
     after_attempts scenario_world scenario_audience scenario_first
       scenario_ask 2).
Proof.
  apply (first_valid_reply_returned scenario_repr scenario_schema
           (client_then scenarioB_text scenarioA_text)
           (Audience_model_dump scenario_audience) scenario_audience prose
           scenario_world 1 scenarioA_text).
  - reflexivity.
  - reflexivity.
  - intros i Hi. destruct i as [|i]; [|lia].
    exists scenarioB_text. split; [reflexivity | vm_compute; reflexivity].
  - reflexivity.
  - vm_compute; reflexivity.
  - lia.
  - lia.
Defined.

(** C4. A reply, among the three attempts, whose text parses as JSON [j]
    with [j] satisfying the schema of [Ideas] is returned as a collection
    that agrees with [j]:
    every [title], [detail], [style] and [procedure] is the very string the
    document holds under that name.  On Scenario A's document the result is
    the single idea T, D, S, P. *)
Theorem returned_fields_match_parsed_json :
  (∀ repr schema client kwargs a conv w k text j fuel,
      Audience_model_validate kwargs = Some a →
      client (length (requests w)) (brainstorm_request repr kwargs)
      = Content conv →
      (∀ i, (i < k)%nat →
            invalid_reply (client (S (length (requests w)) + i)%nat
                                  (extraction_request schema conv))) →
      client (S (length (requests w)) + k)%nat (extraction_request schema conv)
      = Content text →
      Json.loads text = Some j →
      Ideas_schema j = true →
      (k < 3)%nat →
      (k < fuel)%nat →
      ∃ v, brainstorm_ideas repr schema client fuel kwargs w
           = (Returned v,
              after_attempts w a (brainstorm_request repr kwargs)
                (extraction_request schema conv) (S k))
           ∧ Ideas_matches j v)
  ∧ (scenario_run (client_always scenarioA_text) 3).1
    = Returned {| ideas := [ {| title := "T"; detail := "D"; style := "S";
                                procedure := "P" |} ] |}.
Proof.
  split; [|by vm_compute].
  intros repr schema client kwargs a conv w k text j fuel Ha Hc Hbad Hk Hj Hs _ Hf.
  apply Ideas_schema_validate in Hs as [v Hv]. exists v. split.
  - eapply run_first_valid; try done.
    unfold Ideas_model_validate_json. by rewrite Hj.
  - by apply Ideas_validate_matches.
Qed.

Lemma returned_fields_match_parsed_json_witness :
  ∃ v, brainstorm_ideas scenario_repr scenario_schema
         (client_always scenarioA_text) 1
         (Audience_model_dump scenario_audience) scenario_world
       = (Returned v,
          after_attempts scenario_world scenario_audience scenario_first
            scenario_ask 1)
       ∧ Ideas_matches
           (JObject [("ideas",
              JArray [JObject [("title", JString "T"); ("detail", JString "D");
                               ("style", JString "S");
                               ("procedure", JString "P")]])]) v.
Proof.
  apply (proj1 returned_fields_match_parsed_json scenario_repr scenario_schema
           (client_always scenarioA_text)
           (Audience_model_dump scenario_audience) scenario_audience prose
           scenario_world 0%nat scenarioA_text).
  - reflexivity.
  - reflexivity.
  - intros i Hi. lia.
  - reflexivity.
  - vm_compute; reflexivity.
  - reflexivity.
  - lia.
  - lia.
Defined.

(** C5. The caller's [Audience] object is the same after the call: the
    object at its address has the [age] and the [attributes], in order, it
    had before, however the call ends. *)
Theorem audience_unchanged repr schema client fuel addr audience w :
  heap w !! addr = Some audience →
  heap (call_cell repr schema client fuel addr w).2 !! addr = Some audience.
Proof.
  intros H. unfold call_cell. rewrite H.
  eapply prefix_lookup_Some; [exact H | apply run_heap].
Qed.

Lemma audience_unchanged_witness :
  heap (scenario_run (client_then scenarioB_text scenarioA_text) 3).2 !! 0%nat
  = Some {| age := "18-22"; attributes := ["energetic"; "undergraduate"] |}.
Proof.
  apply (audience_unchanged scenario_repr scenario_schema
           (client_then scenarioB_text scenarioA_text) 3 0 scenario_audience
           scenario_world).
  reflexivity.
Defined.

(** C6. A returned collection was validated whole from one reply: the text
    of that reply parses as a JSON value that satisfies the schema of
    [Ideas], item by item, and the collection has one [Idea] per item, its
    four fields being the four strings of the item.  A document with one
    item that is not an [Idea] is rejected as a whole. *)
Theorem returned_collection_fully_valid :
  (∀ repr schema client fuel kwargs w v w',
      brainstorm_ideas repr schema client fuel kwargs w = (Returned v, w') →
      ∃ sent r text j,
        requests w' = (sent ++ [r])%list
        ∧ client (length sent) r = Content text
        ∧ Json.loads text = Some j
        ∧ Ideas_schema j = true
        ∧ Ideas_matches j v)
  ∧ (∀ text m items bad,
        Json.loads text = Some (JObject m) →
        obj_get "ideas" m = Some (JArray items) →
        bad ∈ items →
        Idea_schema bad = false →
        Ideas_model_validate_json text = None).
Proof.
  split.
  - intros repr schema client fuel kwargs w v w' H.
    apply run_returned_inv in H as (a & conv & k & text & Ha & Hc & -> & Hk & Hv & _).
    unfold Ideas_model_validate_json in Hv.
    destruct (Json.loads text) as [j|] eqn:Hj; [|done]. simpl in Hv.
    exists (requests w ++ brainstorm_request repr kwargs
                         :: replicate k (extraction_request schema conv))%list,
      (extraction_request schema conv), text, j.
    split_and!; try done.
    + unfold after_attempts. simpl.
      by rewrite replicate_cons_app, app_comm_cons, app_assoc.
    + rewrite <- Hk. f_equal.
      rewrite length_app. simpl. rewrite length_replicate. lia.
    + apply Ideas_schema_validate. by eexists.
    + by apply Ideas_validate_matches.
  - intros text m items bad Hj Hg Hin Hbad.
    unfold Ideas_model_validate_json. rewrite Hj. simpl.
    eapply Ideas_validate_all_or_nothing; done.
Qed.

Lemma returned_collection_fully_valid_witness :
  ∃ sent r text j,
    [scenario_first; scenario_ask] = (sent ++ [r])%list
    ∧ client_always scenarioA_text (length sent) r = Content text
    ∧ Json.loads text = Some j
    ∧ Ideas_schema j = true
    ∧ Ideas_matches j
        {| ideas := [ {| title := "T"; detail := "D"; style := "S";
                         procedure := "P" |} ] |}.
Proof.
  apply (proj1 returned_collection_fully_valid scenario_repr scenario_schema
           (client_always scenarioA_text) 3%nat
           (Audience_model_dump scenario_audience) scenario_world
           {| ideas := [ {| title := "T"; detail := "D"; style := "S";
                            procedure := "P" |} ] |}
           (after_attempts scenario_world scenario_audience scenario_first
              scenario_ask 1)).
  vm_compute; reflexivity.
Defined.

(** C7, as the code has it.  The fields of a returned [Idea] are strings,
    with nothing asked of their length: when the reply is the JSON
    rendering of a collection [v], whatever strings its fields are, empty
    ones included, the reply validates and [v] is returned (the reply being
    one of the three attempts). *)
Theorem string_fields_accepted_as_they_are
  repr schema client kwargs a conv w k text v fuel :
  Audience_model_validate kwargs = Some a →
  client (length (requests w)) (brainstorm_request repr kwargs) = Content conv →
  (∀ i, (i < k)%nat →
        invalid_reply (client (S (length (requests w)) + i)%nat
                              (extraction_request schema conv))) →
  client (S (length (requests w)) + k)%nat (extraction_request schema conv)
  = Content text →
  Json.loads text = Some (Ideas_json v) →
  (k < 3)%nat →
  (k < fuel)%nat →
  brainstorm_ideas repr schema client fuel kwargs w
  = (Returned v,
     after_attempts w a (brainstorm_request repr kwargs)
       (extraction_request schema conv) (S k)).
Proof.
  intros Ha Hc Hbad Hk Hj _ Hf. eapply run_first_valid; try done.
  unfold Ideas_model_validate_json. rewrite Hj. simpl.
  apply Ideas_validate_json.
Qed.

Lemma string_fields_accepted_as_they_are_witness :
  brainstorm_ideas scenario_repr scenario_schema
    (client_always empty_fields_text) 3
    (Audience_model_dump scenario_audience) scenario_world
  = (Returned {| ideas := [ {| title := EmptyString; detail := EmptyString;
                               style := EmptyString;
                               procedure := EmptyString |} ] |},
     after_attempts scenario_world scenario_audience scenario_first
       scenario_ask 1).
Proof.
  apply (string_fields_accepted_as_they_are scenario_repr scenario_schema
           (client_always empty_fields_text)
           (Audience_model_dump scenario_audience) scenario_audience prose
           scenario_world 0 empty_fields_text).
  - reflexivity.
  - reflexivity.
  - intros i Hi. lia.
  - reflexivity.
  - vm_compute; reflexivity.
  - lia.
  - lia.
Defined.

(** C7, as stated, fails: a reply whose four fields are empty strings is
    returned, so not every returned [Idea] has non-empty fields. *)
Lemma empty_fields_are_returned :
  ¬ (∀ repr schema client fuel kwargs w v w',
        brainstorm_ideas repr schema client fuel kwargs w = (Returned v, w') →
        Forall nonempty_Idea (ideas v)).
Proof.
  intros H.
  specialize (H scenario_repr scenario_schema (client_always empty_fields_text)
                3%nat (Audience_model_dump scenario_audience) scenario_world
                _ _ eq_refl).
  apply Forall_cons in H as [(Htitle & _) _]. by apply Htitle.
Qed.

(** C8. When the first request fails in the client, the call ends at once
    with that error: the only request ever sent is the first one, and no
    extraction request follows. *)
Theorem first_call_failure_propagates repr schema client fuel kwargs a w :
  Audience_model_validate kwargs = Some a →
  client (length (requests w)) (brainstorm_request repr kwargs) = Failure →
  brainstorm_ideas repr schema client fuel kwargs w
  = (Raised TransportError,
     {| heap := heap w ++ [a];
        requests := requests w ++ [brainstorm_request repr kwargs] |}).
Proof. apply run_first_failure. Qed.

Lemma first_call_failure_propagates_witness :
  brainstorm_ideas scenario_repr scenario_schema client_down 3
    (Audience_model_dump scenario_audience) scenario_world
  = (Raised TransportError,
     {| heap := [scenario_audience; scenario_audience];
        requests := [scenario_first] |}).
Proof.
  apply (first_call_failure_propagates scenario_repr scenario_schema
           client_down 3 (Audience_model_dump scenario_audience)
           scenario_audience scenario_world).
  - reflexivity.
  - reflexivity.
Defined.

(** C9. With a valid audience, no run ends in a [ValidationError]: the
    failure of a reply to parse or to validate never reaches the caller.
    After such a failure on the first or on the second attempt the next
    extraction request is sent. *)
Theorem validation_failures_absorbed repr schema client kwargs a w :
  Audience_model_validate kwargs = Some a →
  (∀ fuel,
      (brainstorm_ideas repr schema client fuel kwargs w).1
      ≠ Raised ValidationError)
  ∧ (∀ conv k fuel,
        client (length (requests w)) (brainstorm_request repr kwargs)
        = Content conv →
        (S k < 3)%nat →
        (∀ i, (i < S k)%nat →
              invalid_reply (client (S (length (requests w)) + i)%nat
                                    (extraction_request schema conv))) →
        (S k < fuel)%nat →
        requests (after_attempts w a (brainstorm_request repr kwargs)
                    (extraction_request schema conv) (S (S k)))
          `prefix_of`
          requests (brainstorm_ideas repr schema client fuel kwargs w).2).
Proof.
  intros Ha. split.
  - intros fuel.
    destruct (client (length (requests w)) (brainstorm_request repr kwargs))
      as [conv|] eqn:Hc.
    + rewrite (run_enter _ _ _ _ _ _ _ _ Ha Hc).
      apply loop_no_validation_error.
    + by rewrite (run_first_failure _ _ _ _ _ _ _ Ha Hc).
  - intros conv k fuel Hc _ Hbad Hfuel. by eapply run_next_attempt.
Qed.

Lemma validation_failures_absorbed_witness :
  (brainstorm_ideas scenario_repr scenario_schema
     (client_always scenarioB_text) 3
     (Audience_model_dump scenario_audience) scenario_world).1
  ≠ Raised ValidationError
  ∧ requests (after_attempts scenario_world scenario_audience scenario_first
                scenario_ask 2)
      `prefix_of`
      requests (brainstorm_ideas scenario_repr scenario_schema
                  (client_always scenarioB_text) 3
                  (Audience_model_dump scenario_audience) scenario_world).2.
Proof.
  pose proof (validation_failures_absorbed scenario_repr scenario_schema
                (client_always scenarioB_text)
                (Audience_model_dump scenario_audience) scenario_audience
                scenario_world eq_refl) as [Hno Hnext].
  split; [apply Hno|]. apply (Hnext prose 0%nat 3%nat).
  - reflexivity.
  - lia.
  - intros i Hi. exists scenarioB_text. split; [|vm_compute; reflexivity].
    destruct i as [|i]; reflexivity.
  - lia.
Defined.

(** C10. Members the classes do not declare are ignored: when the reply
    parses as [j] and [j] without its undeclared members, at the top level
    and inside each idea, validates as [v], the reply is accepted on that
    attempt (one of the three) and [v] is returned; the other members are
    nowhere in the result. *)
Theorem undeclared_members_ignored
  repr schema client kwargs a conv w k text j v fuel :
  Audience_model_validate kwargs = Some a →
  client (length (requests w)) (brainstorm_request repr kwargs) = Content conv →
  (∀ i, (i < k)%nat →
        invalid_reply (client (S (length (requests w)) + i)%nat
                              (extraction_request schema conv))) →
  client (S (length (requests w)) + k)%nat (extraction_request schema conv)
  = Content text →
  Json.loads text = Some j →
  Ideas_validate (strip_Ideas j) = Some v →
  (k < 3)%nat →
  (k < fuel)%nat →
  brainstorm_ideas repr schema client fuel kwargs w
  = (Returned v,
     after_attempts w a (brainstorm_request repr kwargs)
       (extraction_request schema conv) (S k)).
Proof.
  intros Ha Hc Hbad Hk Hj Hv _ Hf. eapply run_first_valid; try done.
  unfold Ideas_model_validate_json. rewrite Hj. simpl.
  by rewrite <- Ideas_validate_strip.
Qed.

Lemma undeclared_members_ignored_witness :
  brainstorm_ideas scenario_repr scenario_schema
    (client_always extra_fields_text) 3
    (Audience_model_dump scenario_audience) scenario_world
  = (Returned {| ideas := [ {| title := "T"; detail := "D"; style := "S";
                               procedure := "P" |} ] |},
     after_attempts scenario_world scenario_audience scenario_first
       scenario_ask 1).
Proof.
  apply (undeclared_members_ignored scenario_repr scenario_schema
           (client_always extra_fields_text)
           (Audience_model_dump scenario_audience) scenario_audience prose
           scenario_world 0 extra_fields_text
           (JObject [("note", JNumber "1");
                     ("ideas",
                      JArray [JObject [("title", JString "T");
                                       ("mood", JArray [JString "calm"]);
                                       ("detail", JString "D");
                                       ("style", JString "S");
                                       ("procedure", JString "P")]])])).
  - reflexivity.
  - reflexivity.
  - intros i Hi. lia.
  - reflexivity.
  - vm_compute; reflexivity.
  - vm_compute; reflexivity.
  - lia.
  - lia.
Defined.

(** ** More on the loop, the first line and the replies *)

Section More.

Variable repr : kwargs_t → string.
Variable schema : string.
Variable client : nat → request → reply.

Local Abbreviation run := (brainstorm_ideas repr schema client).
Local Abbreviation loop := (extractor_loop schema client).
Local Abbreviation first := (brainstorm_request repr).
Local Abbreviation ask := (extraction_request schema).

Lemma logged_nil w : logged w [] = w.
Proof. destruct w. unfold logged. simpl. by rewrite app_nil_r. Qed.

(** All the loop does to the world is to log the same request some number
    of times, once per turn at most. *)
Lemma loop_log fuel : ∀ num_try conv w,
  ∃ n, (n ≤ fuel)%nat
       ∧ ((0 < fuel)%nat → num_try < 3 → (0 < n)%nat)
       ∧ (loop fuel num_try conv w).2 = logged w (replicate n (ask conv)).
Proof.
  induction fuel as [|fuel IH]; intros num_try conv w.
  { exists O. split_and!; [done|lia|]. simpl. by rewrite logged_nil. }
  destruct (Z.ltb_spec num_try 3) as [Hlt|Hge].
  2:{ exists O. split_and!; [lia|lia|]. simpl. apply Z.ltb_ge in Hge.
      rewrite Hge. simpl. by rewrite logged_nil. }
  destruct (client (length (requests w)) (ask conv)) as [text|] eqn:Hc.
  2:{ exists 1%nat. rewrite loop_turn_failure by done. split_and!; [lia|lia|done]. }
  destruct (Ideas_model_validate_json text) as [v0|] eqn:Hv.
  - exists 1%nat. rewrite (loop_turn_valid _ _ _ _ _ _ _ _ Hlt Hc Hv).
    split_and!; [lia|lia|done].
  - rewrite loop_turn_invalid; [|done|by exists text].
    destruct (IH num_try conv (logged w [ask conv])) as (n & Hn & _ & ->).
    exists (S n). split_and!; [lia|lia|]. by rewrite logged_logged.
Qed.

(** An exception out of the loop entered with [num_try] below 3 is the
    client's, raised by the last request sent. *)
Lemma loop_raised_inv fuel : ∀ num_try conv w e w',
  num_try < 3 →
  loop fuel num_try conv w = (Raised e, w') →
  e = TransportError
  ∧ ∃ k, w' = logged w (replicate (S k) (ask conv))
         ∧ client (length (requests w) + k) (ask conv) = Failure
         ∧ ∀ i, (i < k)%nat →
                invalid_reply (client (length (requests w) + i) (ask conv)).
Proof.
  induction fuel as [|fuel IH]; intros num_try conv w e w' Hlt H; [done|].
  destruct (client (length (requests w)) (ask conv)) as [text|] eqn:Hc.
  2:{ rewrite loop_turn_failure in H by done. simplify_eq. split; [done|].
      exists O. rewrite Nat.add_0_r. split_and!; [done..|]. intros i Hi. lia. }
  destruct (Ideas_model_validate_json text) as [v0|] eqn:Hv.
  { by rewrite (loop_turn_valid _ _ _ _ _ _ _ _ Hlt Hc Hv) in H. }
  rewrite loop_turn_invalid in H; [|done|by exists text].
  apply IH in H as (-> & k & -> & Hk & Hbad); [|done]. split; [done|].
  exists (S k). rewrite logged_length in Hk. simpl in Hk. split_and!.
  - by rewrite logged_logged.
  - by replace (length (requests w) + S k)%nat
      with (length (requests w) + 1 + k)%nat by lia.
  - intros [|i] Hi.
    + rewrite Nat.add_0_r. by exists text.
    + specialize (Hbad i). rewrite logged_length in Hbad. simpl in Hbad.
      replace (length (requests w) + S i)%nat
        with (length (requests w) + 1 + i)%nat by lia.
      apply Hbad. lia.
Qed.

(** [k] unusable replies, then a request the client fails on. *)
Lemma run_failure_after kwargs a conv w k fuel :
  Audience_model_validate kwargs = Some a →
  client (length (requests w)) (first kwargs) = Content conv →
  (∀ i, (i < k)%nat →
        invalid_reply (client (S (length (requests w)) + i) (ask conv))) →
  client (S (length (requests w)) + k) (ask conv) = Failure →
  (k < fuel)%nat →
  run fuel kwargs w
  = (Raised TransportError, after_attempts w a (first kwargs) (ask conv) (S k)).
Proof.
  intros Ha Hc Hbad Hk Hfuel. rewrite (run_enter _ _ _ _ _ _ _ _ Ha Hc).
  replace fuel with (k + S (fuel - S k))%nat by lia.
  rewrite loop_invalid_prefix; [|done|].
  - rewrite loop_turn_failure; [|done|].
    + rewrite logged_logged, <- entered_logged. do 2 f_equal.
      change [ask conv] with (replicate 1 (ask conv)).
      rewrite <- replicate_add. f_equal. lia.
    + rewrite logged_length, length_replicate, entered_length. exact Hk.
  - intros i Hi. rewrite entered_length. by apply Hbad.
Qed.

(** Once the first line passed, the store holds one object more. *)
Lemma run_heap_valid fuel kwargs a w :
  Audience_model_validate kwargs = Some a →
  heap (run fuel kwargs w).2 = (heap w ++ [a])%list.
Proof.
  intros Ha.
  destruct (client (length (requests w)) (first kwargs)) as [conv|] eqn:Hc.
  - by rewrite (run_enter _ _ _ _ _ _ _ _ Ha Hc), loop_heap.
  - by rewrite (run_first_failure _ _ _ _ _ _ _ Ha Hc).
Qed.

(** Past the first line no [ValidationError] reaches the caller. *)
Lemma run_no_validation_error fuel kwargs a w :
  Audience_model_validate kwargs = Some a →
  (run fuel kwargs w).1 ≠ Raised ValidationError.
Proof.
  intros Ha.
  destruct (client (length (requests w)) (first kwargs)) as [conv|] eqn:Hc.
  - rewrite (run_enter _ _ _ _ _ _ _ _ Ha Hc). apply loop_no_validation_error.
  - by rewrite (run_first_failure _ _ _ _ _ _ _ Ha Hc).
Qed.

(** The requests of a whole call. *)
Lemma run_log fuel kwargs w :
  (Audience_model_validate kwargs = None
   ∧ requests (run fuel kwargs w).2 = requests w)
  ∨ (∃ n, (n ≤ fuel)%nat
          ∧ requests (run fuel kwargs w).2
            = (requests w ++ first kwargs
                 :: replicate n
                      (ask (match client (length (requests w)) (first kwargs) with
                            | Content conv => conv
                            | Failure => EmptyString
                            end)))%list).
Proof.
  destruct (Audience_model_validate kwargs) as [a|] eqn:Ha.
  2:{ left. by rewrite run_invalid_audience. }
  right.
  destruct (client (length (requests w)) (first kwargs)) as [conv|] eqn:Hc.
  - rewrite (run_enter _ _ _ _ _ _ _ _ Ha Hc).
    destruct (loop_log fuel 0 conv (entered w a (first kwargs)))
      as (n & Hn & _ & ->).
    exists n. split; [done|]. by rewrite entered_logged.
  - exists O. split; [lia|]. by rewrite (run_first_failure _ _ _ _ _ _ _ Ha Hc).
Qed.

End More.

Section Inputs.

Implicit Types (kwargs : kwargs_t) (a : Audience).

Lemma py_str_text_type (v : pyval) s : py_str v = Some s → text_type v = true.
Proof. by destruct v. Qed.

Lemma py_list_sequence_type (v : pyval) items :
  py_list v = Some items → sequence_type v = true.
Proof. by destruct v. Qed.

(** What a successful [Audience.model_validate] tells of the dictionary. *)
Lemma Audience_model_validate_Some kwargs a :
  Audience_model_validate kwargs = Some a →
  ∃ v1 v2 items,
    dict_get "age" kwargs = Some v1 ∧ py_str v1 = Some (age a)
    ∧ dict_get "attributes" kwargs = Some v2 ∧ py_list v2 = Some items
    ∧ Forall2 (λ x s, py_str x = Some s) items (attributes a).
Proof.
  unfold Audience_model_validate. intros H.
  destruct (dict_get "age" kwargs) as [v1|]; [|done]. simpl in H.
  destruct (py_str v1) as [s|] eqn:H1; [|done]. simpl in H.
  destruct (dict_get "attributes" kwargs) as [v2|]; [|done]. simpl in H.
  destruct (py_list v2) as [items|] eqn:H2; [|done]. simpl in H.
  destruct (mapM py_str items) as [l|] eqn:Hl; [|done]. simpl in H.
  simplify_eq. exists v1, v2, items. split_and!; try done.
  by apply mapM_Some.
Qed.

Lemma dict_get_declared k kwargs :
  k ∈ Audience_fields → dict_get k (declared_kwargs kwargs) = dict_get k kwargs.
Proof.
  intros Hk. unfold declared_kwargs. induction kwargs as [|[k' x] d IH]; [done|].
  rewrite filter_cons. simpl. case_decide as Hin; simpl.
  - by rewrite IH.
  - rewrite IH. destruct (String.eqb_spec k k') as [->|]; done.
Qed.

Lemma Audience_model_validate_declared kwargs :
  Audience_model_validate (declared_kwargs kwargs)
  = Audience_model_validate kwargs.
Proof.
  unfold Audience_model_validate.
  rewrite !dict_get_declared; [done|compute_done..].
Qed.

Lemma skip_ws_blank (s : list ascii) :
  forallb Json.is_ws s = true → Json.skip_ws s = [].
Proof.
  induction s as [|c s IH]; [done|]. simpl.
  intros [Hc Hs]%andb_true_iff. rewrite Hc. by apply IH.
Qed.

(** White space alone is no JSON document. *)
Lemma loads_blank (text : string) : blank text = true → Json.loads text = None.
Proof.
  intros H. apply skip_ws_blank in H. unfold Json.loads.
  destruct (Json.utf8_valid _); [|done].
  replace (2 * length (list_ascii_of_string text) + 2)%nat
    with (S (2 * length (list_ascii_of_string text) + 1)) by lia.
  cbn [Json.parse_value]. by rewrite H.
Qed.

End Inputs.

(** ** Further properties of [brainstorm_ideas] *)

(** X1. Keyword arguments that cannot fill the two fields end the call
    with a [ValidationError] at its first line, nothing being sent to the
    client and the world being as it was: [age] missing, or of a type no
    [str] field is filled from (anything but [str], [bytes], [bytearray]
    and a member of an [Enum]); [attributes] missing, or not a list, tuple,
    set, frozenset or other iterable (a [str], [bytes] or a [dict] is not
    split into items); or an item of [attributes] of a type no [str] field
    is filled from. *)
Theorem invalid_kwargs_raise_before_any_request repr schema client fuel kwargs w :
  (∀ v, dict_get "age" kwargs = Some v → text_type v = false)
  ∨ (∀ v, dict_get "attributes" kwargs = Some v → sequence_type v = false)
  ∨ (∃ v items x, dict_get "attributes" kwargs = Some v
                  ∧ py_list v = Some items
                  ∧ x ∈ items ∧ text_type x = false) →
  brainstorm_ideas repr schema client fuel kwargs w = (Raised ValidationError, w).
Proof.
  intros H. apply run_invalid_audience.
  destruct (Audience_model_validate kwargs) as [a|] eqn:Ha; [|done].
  apply Audience_model_validate_Some in Ha
    as (v1 & v2 & items & Hg1 & H1 & Hg2 & H2 & Hall).
  destruct H as [H|[H|(v & items' & x & Hg & Hl & Hin & Hx)]].
  - apply H in Hg1. apply py_str_text_type in H1. congruence.
  - apply H in Hg2. apply py_list_sequence_type in H2. congruence.
  - simplify_eq. apply list_elem_of_lookup in Hin as [i Hi].
    destruct (Forall2_lookup_l _ _ _ _ _ Hall Hi) as (s & _ & Hs).
    apply py_str_text_type in Hs. congruence.
Qed.

Lemma invalid_kwargs_raise_before_any_request_witness :
  brainstorm_ideas scenario_repr scenario_schema
    (client_always scenarioA_text) 3
    [("age", PyInt 20); ("attributes", PyList [PyStr "energetic"])]
    scenario_world
  = (Raised ValidationError, scenario_world).
Proof.
  apply (invalid_kwargs_raise_before_any_request scenario_repr scenario_schema
           (client_always scenarioA_text) 3
           [("age", PyInt 20); ("attributes", PyList [PyStr "energetic"])]
           scenario_world).
  left. intros v Hv. simpl in Hv. inversion Hv. reflexivity.
Defined.

(** X2. The call of the last cell, made with the [model_dump()] of an
    [Audience] object, always passes the validation of the first line, and
    the object that line builds is equal to the caller's. *)
Theorem cell_call_copies_audience repr schema client fuel addr audience w :
  heap w !! addr = Some audience →
  (call_cell repr schema client fuel addr w).1 ≠ Raised ValidationError
  ∧ heap (call_cell repr schema client fuel addr w).2
    = (heap w ++ [audience])%list.
Proof.
  intros H. unfold call_cell. rewrite H.
  pose proof (Audience_model_dump_validates audience) as Ha. split.
  - by eapply run_no_validation_error.
  - by apply run_heap_valid.
Qed.

Lemma cell_call_copies_audience_witness :
  (scenario_run client_down 3).1 ≠ Raised ValidationError
  ∧ heap (scenario_run client_down 3).2
    = [scenario_audience; scenario_audience].
Proof.
  apply (cell_call_copies_audience scenario_repr scenario_schema client_down
           3 0 scenario_audience scenario_world).
  reflexivity.
Defined.

(** X3. A failure of the client on an extraction request is not retried:
    [client.create] stands outside the [try], so after [k] replies that did
    not validate, the failure of the next request ends the call with the
    client's error, [k + 1] extraction requests having been sent. *)
Theorem extraction_call_failure_propagates
  repr schema client kwargs a conv w k fuel :
  Audience_model_validate kwargs = Some a →
  client (length (requests w)) (brainstorm_request repr kwargs) = Content conv →
  (∀ i, (i < k)%nat →
        invalid_reply (client (S (length (requests w)) + i)%nat
                              (extraction_request schema conv))) →
  client (S (length (requests w)) + k)%nat (extraction_request schema conv)
  = Failure →
  (k < fuel)%nat →
  brainstorm_ideas repr schema client fuel kwargs w
  = (Raised TransportError,
     after_attempts w a (brainstorm_request repr kwargs)
       (extraction_request schema conv) (S k)).
Proof. apply run_failure_after. Qed.

Lemma extraction_call_failure_propagates_witness :
  brainstorm_ideas scenario_repr scenario_schema
    (client_broken_after 1 scenarioB_text) 3
    (Audience_model_dump scenario_audience) scenario_world
  = (Raised TransportError,
     after_attempts scenario_world scenario_audience scenario_first
       scenario_ask 2).
Proof.
  apply (extraction_call_failure_propagates scenario_repr scenario_schema
           (client_broken_after 1 scenarioB_text)
           (Audience_model_dump scenario_audience) scenario_audience prose
           scenario_world 1 3).
  - reflexivity.
  - reflexivity.
  - intros i Hi. destruct i as [|i]; [|lia].
    exists scenarioB_text. split; [reflexivity | vm_compute; reflexivity].
  - reflexivity.
  - lia.
Defined.

(** X4. As the loop is written, with [num_try] left at 0, no call ends
    with the [Exception()] of the last line, whatever the keyword arguments
    and the client, and however long the run is followed. *)
Theorem exhaustion_exception_never_raised repr schema client fuel kwargs w :
  (brainstorm_ideas repr schema client fuel kwargs w).1 ≠ Raised PlainException.
Proof. apply run_no_plain_exception. Qed.

(** X5. The exceptions a call can end with are two.  A [ValidationError]
    comes from the first line: the keyword arguments are no [Audience] and
    the world is untouched.  Any other is the client's, raised by the last
    request the call sent. *)
Theorem raised_errors_classified repr schema client fuel kwargs w e w' :
  brainstorm_ideas repr schema client fuel kwargs w = (Raised e, w') →
  (e = ValidationError ∧ Audience_model_validate kwargs = None ∧ w' = w)
  ∨ (e = TransportError
     ∧ ∃ sent r, requests w' = (sent ++ [r])%list
                 ∧ client (length sent) r = Failure).
Proof.
  intros H.
  destruct (Audience_model_validate kwargs) as [a|] eqn:Ha.
  2:{ rewrite run_invalid_audience in H by done. simplify_eq. by left. }
  right.
  destruct (client (length (requests w)) (brainstorm_request repr kwargs))
    as [conv|] eqn:Hc.
  2:{ rewrite (run_first_failure _ _ _ _ _ _ _ Ha Hc) in H. simplify_eq.
      split; [done|]. by exists (requests w), (brainstorm_request repr kwargs). }
  rewrite (run_enter _ _ _ _ _ _ _ _ Ha Hc) in H.
  apply loop_raised_inv in H as (-> & k & -> & Hk & _); [|done].
  split; [done|]. rewrite entered_length in Hk.
  exists (requests w ++ brainstorm_request repr kwargs
            :: replicate k (extraction_request schema conv))%list,
    (extraction_request schema conv). split.
  - rewrite entered_logged. unfold after_attempts. simpl.
    by rewrite replicate_cons_app, app_comm_cons, app_assoc.
  - rewrite <- Hk. f_equal.
    rewrite length_app. simpl. rewrite length_replicate. lia.
Qed.

Lemma raised_errors_classified_witness :
  (TransportError = ValidationError
   ∧ Audience_model_validate (Audience_model_dump scenario_audience) = None
   ∧ after_attempts scenario_world scenario_audience scenario_first
       scenario_ask 2 = scenario_world)
  ∨ (TransportError = TransportError
     ∧ ∃ sent r,
         requests (after_attempts scenario_world scenario_audience
                     scenario_first scenario_ask 2) = (sent ++ [r])%list
         ∧ client_broken_after 1 scenarioB_text (length sent) r = Failure).
Proof.
  apply (raised_errors_classified scenario_repr scenario_schema
           (client_broken_after 1 scenarioB_text) 3
           (Audience_model_dump scenario_audience) scenario_world).
  vm_compute; reflexivity.
Defined.

(** X6. Every extraction request of a call is the same message, built from
    the schema and from the reply to the first request; no reply to an
    earlier attempt goes into a later one.  A run of [fuel] turns has sent
    at most [fuel] of them, and at least one as soon as a turn is taken; it
    made one [Audience] object and did nothing else. *)
Theorem extraction_requests_identical repr schema client kwargs a conv w fuel :
  Audience_model_validate kwargs = Some a →
  client (length (requests w)) (brainstorm_request repr kwargs) = Content conv →
  ∃ n, (n ≤ fuel)%nat
       ∧ ((0 < fuel)%nat → (0 < n)%nat)
       ∧ (brainstorm_ideas repr schema client fuel kwargs w).2
         = after_attempts w a (brainstorm_request repr kwargs)
             (extraction_request schema conv) n.
Proof.
  intros Ha Hc. rewrite (run_enter _ _ _ _ _ _ _ _ Ha Hc).
  destruct (loop_log schema client fuel 0 conv
              (entered w a (brainstorm_request repr kwargs)))
    as (n & Hn & Hpos & ->).
  exists n. split_and!; [done|auto with lia|by rewrite entered_logged].
Qed.

Lemma extraction_requests_identical_witness :
  ∃ n, (n ≤ 3)%nat
       ∧ ((0 < 3)%nat → (0 < n)%nat)
       ∧ (brainstorm_ideas scenario_repr scenario_schema
            (client_then scenarioB_text scenarioA_text) 3
            (Audience_model_dump scenario_audience) scenario_world).2
         = after_attempts scenario_world scenario_audience scenario_first
             scenario_ask n.
Proof.
  apply (extraction_requests_identical scenario_repr scenario_schema
           (client_then scenarioB_text scenarioA_text)
           (Audience_model_dump scenario_audience) scenario_audience prose
           scenario_world 3).
  - reflexivity.
  - reflexivity.
Defined.

(** X7. Keyword arguments other than [age] and [attributes] are not
    rejected and play no part in the validation of the first line: a call
    ends with a [ValidationError] exactly when the declared ones alone are
    no [Audience]. *)
Theorem undeclared_kwargs_do_not_matter repr schema client fuel kwargs w :
  (brainstorm_ideas repr schema client fuel kwargs w).1 = Raised ValidationError
  ↔ Audience_model_validate (declared_kwargs kwargs) = None.
Proof.
  rewrite Audience_model_validate_declared. split.
  - intros H. destruct (Audience_model_validate kwargs) as [a|] eqn:Ha; [|done].
    by destruct (run_no_validation_error repr schema client fuel kwargs a w Ha).
  - intros Ha. by rewrite run_invalid_audience.
Qed.

(** X8. A reply that is empty or made of white space only never validates:
    it is one of the replies the loop drops. *)
Theorem blank_reply_is_dropped (text : string) :
  blank text = true → invalid_reply (Content text).
Proof.
  intros H. exists text. split; [done|].
  unfold Ideas_model_validate_json. by rewrite loads_blank.
Qed.

Lemma blank_reply_is_dropped_witness :
  invalid_reply (Content ("  " +:+ nl +:+ " ")).
Proof.
  apply (blank_reply_is_dropped ("  " +:+ nl +:+ " ")).
  vm_compute; reflexivity.
Defined.

(** X9. A collection may be empty: a reply whose document has the empty
    array under [ideas] validates, and the call returns the collection of
    no ideas instead of asking again. *)
Theorem empty_collection_is_returned
  repr schema client kwargs a conv w k text m fuel :
  Audience_model_validate kwargs = Some a →
  client (length (requests w)) (brainstorm_request repr kwargs) = Content conv →
  (∀ i, (i < k)%nat →
        invalid_reply (client (S (length (requests w)) + i)%nat
                              (extraction_request schema conv))) →
  client (S (length (requests w)) + k)%nat (extraction_request schema conv)
  = Content text →
  Json.loads text = Some (JObject m) →
  obj_get "ideas" m = Some (JArray []) →
  (k < fuel)%nat →
  brainstorm_ideas repr schema client fuel kwargs w
  = (Returned {| ideas := [] |},
     after_attempts w a (brainstorm_request repr kwargs)
       (extraction_request schema conv) (S k)).
Proof.
  intros Ha Hc Hbad Hk Hj Hm Hf. eapply run_first_valid; try done.
  unfold Ideas_model_validate_json. rewrite Hj. simpl. by rewrite Hm.
Qed.

Lemma empty_collection_is_returned_witness :
  brainstorm_ideas scenario_repr scenario_schema
    (client_always ("{" +:+ q "ideas" +:+ ": []}")) 3
    (Audience_model_dump scenario_audience) scenario_world
  = (Returned {| ideas := [] |},
     after_attempts scenario_world scenario_audience scenario_first
       scenario_ask 1).
Proof.
  apply (empty_collection_is_returned scenario_repr scenario_schema
           (client_always ("{" +:+ q "ideas" +:+ ": []}"))
           (Audience_model_dump scenario_audience) scenario_audience prose
           scenario_world 0 ("{" +:+ q "ideas" +:+ ": []}")
           [("ideas", JArray [])]).
  - reflexivity.
  - reflexivity.
  - intros i Hi. lia.
  - reflexivity.
  - vm_compute; reflexivity.
  - reflexivity.
  - lia.
Defined.

(** X10. Of the requests a call sends, only the first names a model,
    [gpt-35]; every extraction request leaves the model to the client. *)
Theorem only_first_request_names_model repr schema client fuel kwargs w :
  ∃ sent,
    requests (brainstorm_ideas repr schema client fuel kwargs w).2
    = (requests w ++ sent)%list
    ∧ models_as_written sent.
Proof.
  destruct (run_log repr schema client fuel kwargs w) as [[_ ->]|(n & _ & ->)].
  - exists []. split; [by rewrite app_nil_r|done].
  - eexists. split; [done|]. split; [done|].
    apply Forall_forall. by intros x ->%elem_of_replicate_inv.
Qed.

(** ** Replies that do not start as an object *)

Section Shape.

Lemma keyword_value w v s v' r :
  Json.keyword w v s = Some (v', r) → v' = v.
Proof. unfold Json.keyword. destruct (Json.expect _ _); naive_solver. Qed.

Lemma parse_number_value s v r :
  Json.parse_number s = Some (v, r) → is_object v = false.
Proof.
  unfold Json.parse_number. intros H.
  repeat (case_match; simplify_eq); done.
Qed.

Lemma parse_elements_value fuel : ∀ depth s acc v r,
  Json.parse_elements fuel depth s acc = Some (v, r) → is_object v = false.
Proof.
  induction fuel as [|f IH]; intros depth s acc v r H; [done|].
  cbn [Json.parse_elements] in H.
  destruct (Json.parse_value f depth s) as [[v0 r0]|]; [|done].
  destruct (Json.skip_ws r0) as [|c r1]; [done|].
  destruct c as [[] [] [] [] [] [] [] []]; try done.
  - by simplify_eq.
  - by eapply IH.
Qed.

Lemma parse_value_not_object fuel depth s c r v rest :
  Json.skip_ws s = c :: r →
  c ≠ "{"%char →
  Json.parse_value fuel depth s = Some (v, rest) →
  is_object v = false.
Proof.
  intros Hs Hc H. destruct fuel as [|f]; [done|].
  cbn [Json.parse_value] in H. rewrite Hs in H.
  destruct (Ascii.eqb_spec c "{"%char) as [|_]; [done|].
  destruct (Ascii.eqb c "["%char).
  { destruct (Json.skip_ws r) as [|c' r'].
    - destruct depth; [done|]. by eapply parse_elements_value.
    - destruct c' as [[] [] [] [] [] [] [] []];
        try (destruct depth; [done|]; by eapply parse_elements_value).
      by simplify_eq. }
  destruct (Ascii.eqb c Json.dquote).
  { destruct (Json.parse_chars r []) as [[str r']|]; by simplify_eq. }
  repeat (destruct (Ascii.eqb c _);
          [by apply keyword_value in H; subst|]).
  destruct (Ascii.eqb c "-"%char); [|by eapply parse_number_value].
  destruct r as [|c' r']; [by eapply parse_number_value|].
  destruct c' as [[] [] [] [] [] [] [] []];
    try (by eapply parse_number_value).
  by apply keyword_value in H; subst.
Qed.

Lemma Ideas_validate_object j : is_object j = false → Ideas_validate j = None.
Proof. by destruct j. Qed.

End Shape.

(** X11. A reply is JSON only: when the first character of the text that
    is not white space is anything but an opening brace (prose before the
    document, a code fence around it, an array), the reply does not
    validate and is one of those the loop drops. *)
Theorem reply_not_starting_as_object_is_dropped (text : string) c r :
  Json.skip_ws (list_ascii_of_string text) = c :: r →
  c ≠ "{"%char →
  invalid_reply (Content text).
Proof.
  intros Hs Hc. exists text. split; [done|].
  unfold Ideas_model_validate_json, Json.loads.
  destruct (Json.utf8_valid _); [|done].
  destruct (Json.parse_value _ _ _) as [[v rest]|] eqn:Hp; [|done].
  apply (parse_value_not_object _ _ _ _ _ _ _ Hs Hc) in Hp.
  destruct (Json.skip_ws rest); [|done]. simpl. by apply Ideas_validate_object.
Qed.

Lemma reply_not_starting_as_object_is_dropped_witness :
  invalid_reply (Content ("Here is the JSON: " +:+ scenarioA_text)).
Proof.
  apply (reply_not_starting_as_object_is_dropped
           ("Here is the JSON: " +:+ scenarioA_text) "H"%char
           (list_ascii_of_string ("ere is the JSON: " +:+ scenarioA_text))).
  - vm_compute; reflexivity.
  - discriminate.
Defined.
